(** * skdim.id._MLE : maximum-likelihood intrinsic-dimension estimator

    A shallow embedding of [src/skdim/id/_MLE.py] (class [MLE]) and the
    properties of its fitting engine.

    Conventions of the embedding.
    - A float64 value is a real number ([R]): rounding, NaN and the
      infinities of IEEE arithmetic are not represented, and a quotient by
      zero is the [0] of [Rdiv] where numpy gives an infinity or NaN.  What
      underflow does to the estimate without noise is read off a second
      writing of that branch on binary64 values.
    - A Python [int] is a [Z].
    - The estimator object [self] is a record; a method is a function from
      the object to the object after the call and either the returned value
      or the raised exception.  An exception keeps every attribute written
      before it was raised, as in Python.
    - The collaborators that are not part of this module
      ([scipy.integrate.quad], [get_nn]) and the interpreter's recursion
      limit are the fields of the class [Env].
    - [trace] is a ghost attribute: the list of the numerical steps a call
      has started, used to state "before any numerical work". *)

From Stdlib Require Import Reals Lra Lia ZArith String Bool List Sorted Permutation.
From Stdlib Require PrimFloat.
Import PrimFloat.PrimFloatNotations.
Import ListNotations.

Open Scope R_scope.

(** ** Exceptions and the method monad *)

Inductive exn : Type :=
| ValueError (msg : string)
| NameError (msg : string)
| TypeError (msg : string)
| IndexError (msg : string)
| AttributeError (msg : string)
| RecursionError.

Inductive res (A : Type) : Type :=
| Ok (v : A)
| Err (e : exn).
Arguments Ok {A} v.
Arguments Err {A} e.

Definition res_bind {A B : Type} (r : res A) (f : A -> res B) : res B :=
  match r with
  | Ok v => f v
  | Err e => Err e
  end.

(** ** numpy on one-dimensional float arrays *)

(** [np.sum] *)
Definition np_sum (a : list R) : R := fold_left Rplus a 0.

(** [np.max]: raises on an empty array. *)
Definition np_max (a : list R) : res R :=
  match a with
  | [] => Err (ValueError "zero-size array to reduction operation maximum which has no identity")
  | x :: xs => Ok (fold_left Rmax xs x)
  end.

(** [np.mean] *)
Definition np_mean (a : list R) : R := np_sum a / INR (length a).

Fixpoint insert_sorted (x : R) (a : list R) : list R :=
  match a with
  | [] => [x]
  | y :: ys => if Rle_dec x y then x :: y :: ys else y :: insert_sorted x ys
  end.

(** [np.sort]: ascending. *)
Definition np_sort (a : list R) : list R := fold_right insert_sorted [] a.

(** [np.median]: the middle element of the sorted array, or the mean of the
    two middle elements when the length is even. *)
Definition np_median (a : list R) : R :=
  let s := np_sort a in
  let len := length s in
  if Nat.even len
  then (nth (len / 2 - 1) s 0 + nth (len / 2) s 0) / 2
  else nth (len / 2) s 0.

(** [set(...)] of floats, as a list without duplicates (its order is
    unspecified in Python; every use below sorts it). *)
Definition py_set (a : list R) : list R := nodup Req_dec_T a.

(** [a.flatten(order="F")] of a two-dimensional array given by its rows:
    column after column. *)
Fixpoint columns (ncols : nat) (rows : list (list R)) : list (list R) :=
  match ncols with
  | O => []
  | S m => map (fun row => hd 0 row) rows :: columns m (map (@tl R) rows)
  end.

Definition flatten_F (rows : list (list R)) : list R :=
  concat (columns (length (hd [] rows)) rows).

(** [a[:stop]]: a negative [stop] counts from the end. *)
Definition slice_to {A : Type} (stop : Z) (a : list A) : list A :=
  if (0 <=? stop)%Z
  then firstn (Z.to_nat stop) a
  else firstn (Z.to_nat (Z.of_nat (length a) + stop)) a.

(** [a[i]]: a negative index counts from the end, an index out of range
    raises. *)
Definition py_index (a : list R) (i : Z) : res R :=
  let len := Z.of_nat (length a) in
  let j := if (i <? 0)%Z then (i + len)%Z else i in
  if ((0 <=? j) && (j <? len))%Z
  then Ok (nth (Z.to_nat j) a 0)
  else Err (IndexError "index out of bounds").

Fixpoint res_map {A B : Type} (f : A -> res B) (l : list A) : res (list B) :=
  match l with
  | [] => Ok []
  | x :: xs =>
      res_bind (f x) (fun y => res_bind (res_map f xs) (fun ys => Ok (y :: ys)))
  end.

(** ** The estimator object *)

(** What the attribute [dnoise] can hold: [None], a string (the documented
    value is ['dnoiseGaussH']), the static method [_dnoiseGaussH], a callable
    of the caller, or the closure that [_fit] stores,
    [lambda r, s, sigma, k: r * self.dnoise(r, s, sigma, k)].  That closure
    captures [self], not the density: every closure [_fit] creates is this
    same function of the object. *)
Inductive dnoise_val : Type :=
| DNone
| DStr (name : string)
| DGaussH
| DFun (f : R -> R -> R -> option Z -> R)
| DLambda.

(** The numerical steps recorded in the ghost attribute [trace]. *)
Inductive event : Type :=
| EvNeighborSearch (k : Z)
    (* a call of get_nn *)
| EvEstimate (Rs : list R) (sigma : R)
    (* an entry of _maxLikDimEstFromR_haro_approx *)
| EvQuad (Rj sigma a b : R).
    (* a call of scipy.integrate.quad over [a, b], for the neighbour
       radius Rj, with the noise scale the integrand passes to dnoise *)

Record MLE : Type := mkMLE {
  (* the arguments of __init__ *)
  dnoise : dnoise_val;
  sigma : R;
  n : option Z;
  integral_approximation : string;
  unbiased : bool;
  neighborhood_based : bool;
  K : Z;
  (* the attributes fit writes *)
  n_neighbors : option Z;
  comb : option string;
  dimension_pw_ : option (list R);
  dimension_ : option R;
  dimension_pw_smooth_ : option (list R);
  is_fitted_pw_smooth_ : bool;
  is_fitted_pw_ : bool;
  is_fitted_ : bool;
  (* ghost *)
  trace : list event
}.

(** [MLE(dnoise, sigma, n, integral_approximation, unbiased,
    neighborhood_based, K)] *)
Definition __init__ (dnoise : dnoise_val) (sigma : R) (n : option Z)
    (integral_approximation : string) (unbiased neighborhood_based : bool)
    (K : Z) : MLE :=
  mkMLE dnoise sigma n integral_approximation unbiased neighborhood_based K
        None None None None None false false false [].

Definition set_dnoise (v : dnoise_val) (o : MLE) : MLE :=
  mkMLE v o.(sigma) o.(n) o.(integral_approximation) o.(unbiased)
        o.(neighborhood_based) o.(K) o.(n_neighbors) o.(comb)
        o.(dimension_pw_) o.(dimension_) o.(dimension_pw_smooth_)
        o.(is_fitted_pw_smooth_) o.(is_fitted_pw_) o.(is_fitted_) o.(trace).

Definition set_K (v : Z) (o : MLE) : MLE :=
  mkMLE o.(dnoise) o.(sigma) o.(n) o.(integral_approximation) o.(unbiased)
        o.(neighborhood_based) v o.(n_neighbors) o.(comb)
        o.(dimension_pw_) o.(dimension_) o.(dimension_pw_smooth_)
        o.(is_fitted_pw_smooth_) o.(is_fitted_pw_) o.(is_fitted_) o.(trace).

Definition set_n_neighbors (v : Z) (o : MLE) : MLE :=
  mkMLE o.(dnoise) o.(sigma) o.(n) o.(integral_approximation) o.(unbiased)
        o.(neighborhood_based) o.(K) (Some v) o.(comb)
        o.(dimension_pw_) o.(dimension_) o.(dimension_pw_smooth_)
        o.(is_fitted_pw_smooth_) o.(is_fitted_pw_) o.(is_fitted_) o.(trace).

Definition set_comb (v : string) (o : MLE) : MLE :=
  mkMLE o.(dnoise) o.(sigma) o.(n) o.(integral_approximation) o.(unbiased)
        o.(neighborhood_based) o.(K) o.(n_neighbors) (Some v)
        o.(dimension_pw_) o.(dimension_) o.(dimension_pw_smooth_)
        o.(is_fitted_pw_smooth_) o.(is_fitted_pw_) o.(is_fitted_) o.(trace).

Definition set_dimension_pw_ (v : list R) (o : MLE) : MLE :=
  mkMLE o.(dnoise) o.(sigma) o.(n) o.(integral_approximation) o.(unbiased)
        o.(neighborhood_based) o.(K) o.(n_neighbors) o.(comb)
        (Some v) o.(dimension_) o.(dimension_pw_smooth_)
        o.(is_fitted_pw_smooth_) o.(is_fitted_pw_) o.(is_fitted_) o.(trace).

Definition set_dimension_ (v : R) (o : MLE) : MLE :=
  mkMLE o.(dnoise) o.(sigma) o.(n) o.(integral_approximation) o.(unbiased)
        o.(neighborhood_based) o.(K) o.(n_neighbors) o.(comb)
        o.(dimension_pw_) (Some v) o.(dimension_pw_smooth_)
        o.(is_fitted_pw_smooth_) o.(is_fitted_pw_) o.(is_fitted_) o.(trace).

Definition set_dimension_pw_smooth_ (v : list R) (o : MLE) : MLE :=
  mkMLE o.(dnoise) o.(sigma) o.(n) o.(integral_approximation) o.(unbiased)
        o.(neighborhood_based) o.(K) o.(n_neighbors) o.(comb)
        o.(dimension_pw_) o.(dimension_) (Some v)
        o.(is_fitted_pw_smooth_) o.(is_fitted_pw_) o.(is_fitted_) o.(trace).

Definition set_is_fitted_pw_smooth_ (v : bool) (o : MLE) : MLE :=
  mkMLE o.(dnoise) o.(sigma) o.(n) o.(integral_approximation) o.(unbiased)
        o.(neighborhood_based) o.(K) o.(n_neighbors) o.(comb)
        o.(dimension_pw_) o.(dimension_) o.(dimension_pw_smooth_)
        v o.(is_fitted_pw_) o.(is_fitted_) o.(trace).

Definition set_is_fitted_pw_ (v : bool) (o : MLE) : MLE :=
  mkMLE o.(dnoise) o.(sigma) o.(n) o.(integral_approximation) o.(unbiased)
        o.(neighborhood_based) o.(K) o.(n_neighbors) o.(comb)
        o.(dimension_pw_) o.(dimension_) o.(dimension_pw_smooth_)
        o.(is_fitted_pw_smooth_) v o.(is_fitted_) o.(trace).

Definition set_is_fitted_ (v : bool) (o : MLE) : MLE :=
  mkMLE o.(dnoise) o.(sigma) o.(n) o.(integral_approximation) o.(unbiased)
        o.(neighborhood_based) o.(K) o.(n_neighbors) o.(comb)
        o.(dimension_pw_) o.(dimension_) o.(dimension_pw_smooth_)
        o.(is_fitted_pw_smooth_) o.(is_fitted_pw_) v o.(trace).

Definition set_trace (v : list event) (o : MLE) : MLE :=
  mkMLE o.(dnoise) o.(sigma) o.(n) o.(integral_approximation) o.(unbiased)
        o.(neighborhood_based) o.(K) o.(n_neighbors) o.(comb)
        o.(dimension_pw_) o.(dimension_) o.(dimension_pw_smooth_)
        o.(is_fitted_pw_smooth_) o.(is_fitted_pw_) o.(is_fitted_) v.

(** A method body: from the object before the call to the object after it
    and the value returned or the exception raised. *)
Definition M (A : Type) : Type := MLE -> MLE * res A.

Definition ret {A : Type} (v : A) : M A := fun self => (self, Ok v).

Definition raise {A : Type} (e : exn) : M A := fun self => (self, Err e).

Definition bind {A B : Type} (m : M A) (f : A -> M B) : M B :=
  fun self =>
    match m self with
    | (self', Ok v) => f v self'
    | (self', Err e) => (self', Err e)
    end.

Definition get_self : M MLE := fun self => (self, Ok self).

Definition modify (f : MLE -> MLE) : M unit := fun self => (f self, Ok tt).

Definition lift {A : Type} (r : res A) : M A := fun self => (self, r).

Definition when (b : bool) (m : M unit) : M unit := if b then m else ret tt.

Definition emit (e : event) : M unit :=
  modify (fun self => set_trace (self.(trace) ++ [e]) self).

Declare Scope method_scope.
Delimit Scope method_scope with method.
Notation "x <- m ;; k" := (bind m (fun x => k))
  (at level 100, m at next level, right associativity) : method_scope.
Notation "m ;; k" := (bind m (fun _ => k))
  (at level 100, right associativity) : method_scope.
Open Scope method_scope.

(** A [for] loop that collects one value per element. *)
Fixpoint for_each {A B : Type} (f : A -> M B) (l : list A) : M (list B) :=
  match l with
  | [] => ret []
  | x :: xs =>
      y <- f x ;;
      ys <- for_each f xs ;;
      ret (y :: ys)
  end.

(** ** Collaborators *)

(** The parts of the environment that [_MLE.py] calls and does not define.
    - [quad f a b] is [scipy.integrate.quad(f, a, b, epsrel=1e-2,
      epsabs=1e-2)[0]] for an integrand that returns at every point.
    - [get_nn X k n_jobs] is the neighbour search of [_commonfuncs]: the
      sorted neighbour distances and the neighbour indices, row by row.
    - [recursion_limit] is the interpreter's bound on the depth of nested
      calls. *)
Class Env : Type := {
  quad : (R -> R) -> R -> R -> R;
  get_nn : list (list R) -> Z -> Z -> list (list R) * list (list Z);
  recursion_limit : nat
}.

(** [scipy.integrate.quad] on an integrand that may raise: QUADPACK's first
    evaluation is at the centre of the interval, and an exception of the
    integrand leaves [quad]. *)
Definition scipy_quad `{Env} (f : R -> res R) (a b : R) : res R :=
  match f ((a + b) / 2) with
  | Err e => Err e
  | Ok _ => Ok (quad (fun x => match f x with Ok v => v | Err _ => 0 end) a b)
  end.

(** What [X] can be: a one- or a two-dimensional array (the latter by
    rows; an array without rows is taken to have no columns). *)
Inductive array_like : Type :=
| Arr1 (a : list R)
| Arr2 (rows : list (list R)).

(** [len(X)] *)
Definition len (X : array_like) : Z :=
  match X with
  | Arr1 a => Z.of_nat (length a)
  | Arr2 rows => Z.of_nat (length rows)
  end.

Definition n_features (rows : list (list R)) : Z :=
  Z.of_nat (length (hd [] rows)).

Definition rectangular (rows : list (list R)) : bool :=
  forallb (fun row => Nat.eqb (length row) (length (hd [] rows))) rows.

(** [sklearn.utils.validation.check_array(X, ensure_min_samples=...,
    ensure_min_features=...)], on what it checks of the shape: two
    dimensions, then the number of samples, then the number of features. *)
Definition check_array (X : array_like) (ensure_min_samples ensure_min_features : Z)
    : res (list (list R)) :=
  match X with
  | Arr1 _ => Err (ValueError "Expected 2D array, got 1D array instead")
  | Arr2 rows =>
      if negb (rectangular rows)
      then Err (ValueError "setting an array element with a sequence")
      else if ((0 <? ensure_min_samples) && (Z.of_nat (length rows) <? ensure_min_samples))%Z
      then Err (ValueError "Found array with too few sample(s)")
      else if ((0 <? ensure_min_features) && (n_features rows <? ensure_min_features))%Z
      then Err (ValueError "Found array with too few feature(s)")
      else Ok rows
  end.

(** [warnings.warn(msg)].  The module imports [inspect], [scipy.integrate],
    [numpy], [lens], [get_nn], [LocalEstimator] and [check_array]: the name
    [warnings] is bound nowhere, and evaluating it raises. *)
Definition warnings_warn (msg : string) : M unit :=
  raise (NameError "name 'warnings' is not defined").

(** ** The methods of [MLE] *)

Definition _N_NEIGHBORS : Z := 20.

(** [_dnoiseGaussH(r, s, sigma, k=None)], for a noise scale other than
    zero.  At [sigma = 0] the source divides by zero (NaN on numpy values, an
    exception on Python numbers), which the real numbers do not show: the
    properties of the density below are stated for [0 < sigma]. *)
Definition _dnoiseGaussH (r s sigma : R) (k : option Z) : R :=
  exp (- 0.5 * ((s - r) / sigma) ^ 2) / (sigma * sqrt (2 * PI)).

(** A call [callee(r, s, sigma, k)] of a value taken from the attribute
    [dnoise], while the attribute holds [self_dnoise], with [depth] nested
    calls left.  The closure of [_fit] reads [self.dnoise] when it is
    called. *)
Fixpoint call_dnoise (depth : nat) (self_dnoise callee : dnoise_val)
    (r s sigma : R) (k : option Z) : res R :=
  match callee with
  | DNone => Err (TypeError "'NoneType' object is not callable")
  | DStr _ => Err (TypeError "'str' object is not callable")
  | DGaussH => Ok (_dnoiseGaussH r s sigma k)
  | DFun f => Ok (f r s sigma k)
  | DLambda =>
      match depth with
      | O => Err RecursionError
      | S depth' =>
          res_bind (call_dnoise depth' self_dnoise self_dnoise r s sigma k)
                   (fun v => Ok (r * v))
      end
  end.

(** [self.dnoise(r, s, sigma, k)] *)
Definition self_dnoise_call `{Env} (self : MLE) (r s sigma : R) (k : option Z) : res R :=
  call_dnoise recursion_limit self.(dnoise) self.(dnoise) r s sigma k.

Definition is_None (d : dnoise_val) : bool :=
  match d with
  | DNone => true
  | _ => false
  end.

(** [self.dnoise == "dnoiseGaussH"] *)
Definition dnoise_eq_str (d : dnoise_val) (s : string) : bool :=
  match d with
  | DStr name => String.eqb name s
  | _ => false
  end.

(** The integrands [numInt] and [denomInt] that
    [_maxLikDimEstFromR_haro_approx] defines, with the variables they close
    over: the object, [Rk], [sigma] and the neighbour radius [Rj] of the
    current turn of the loop. *)
Definition numInt `{Env} (self : MLE) (Rk sigma Rj x : R) : res R :=
  res_bind (self_dnoise_call self x Rj sigma self.(n))
           (fun d => Ok (d * ln (Rk / x))).

Definition denomInt `{Env} (self : MLE) (sigma Rj x : R) : res R :=
  self_dnoise_call self x Rj sigma self.(n).

(** One turn of the loop over [j]: the two integrals for [Rj = Rs[j]] and
    their quotient. *)
Definition integral_ratio `{Env} (self : MLE) (Rk sigma Rpr Rj : R) : M R :=
  emit (EvQuad Rj sigma 0 Rpr) ;;
  numerator <- lift (scipy_quad (numInt self Rk sigma Rj) 0 Rpr) ;;
  emit (EvQuad Rj sigma 0 Rpr) ;;
  denominator <- lift (scipy_quad (denomInt self sigma Rj) 0 Rpr) ;;
  ret (numerator / denominator).

(** [_maxLikDimEstFromR_haro_approx(self, Rs, sigma)] *)
Definition _maxLikDimEstFromR_haro_approx `{Env} (Rs : list R) (sigma : R) : M R :=
  emit (EvEstimate Rs sigma) ;;
  self <- get_self ;;
  let k := Z.of_nat (length Rs) in
  let kfac := if self.(unbiased) then (k - 2)%Z else (k - 1)%Z in
  Rk <- lift (np_max Rs) ;;
  if is_None self.(dnoise)
  then ret (IZR kfac / np_sum (map (fun Ri => ln (Rk / Ri)) Rs))
  else
    let Rpr := Rk + 100 * sigma in
    terms <- for_each (integral_ratio self Rk sigma Rpr) (slice_to (k - 1) Rs) ;;
    ret (IZR kfac / np_sum terms).

Definition known_approximations : list string :=
  ["Haro"; "guaranteed.convergence"; "iteration"]%string.

(** [_fit(self, Rs, sigma)].  The body never reads its parameter [sigma]
    (here [sigma_param]): the call of the estimator passes [self.sigma]. *)
Definition _fit `{Env} (Rs : list R) (sigma_param : R) : M R :=
  self <- get_self ;;
  if negb (existsb (String.eqb self.(integral_approximation)) known_approximations)
  then raise (ValueError "Unknown integral_approximation parameter")
  else
    when (dnoise_eq_str self.(dnoise) "dnoiseGaussH") (modify (set_dnoise DGaussH)) ;;
    self <- get_self ;;
    when (negb (String.eqb self.(integral_approximation) "Haro")
          && negb (is_None self.(dnoise)))
         (modify (set_dnoise DLambda)) ;;
    self <- get_self ;;
    de <- _maxLikDimEstFromR_haro_approx Rs self.(sigma) ;;
    if String.eqb self.(integral_approximation) "iteration"
    then raise (ValueError "integral_approximation='iteration' not implemented yet. See R intrinsicDimension package")
    else ret de.

(** [_maxLikPointwiseDimEst(self, dists)]: one estimate per row.  [dists]
    is the two-dimensional array of the source, given by its rows; the
    source reads row [i] as [dists[i, :]], so the rows it sees all have one
    length. *)
Definition _maxLikPointwiseDimEst `{Env} (dists : list (list R)) : M (list R) :=
  for_each (fun Rs => self <- get_self ;; _fit Rs self.(sigma)) dists.

(** [np.mean(np.append(pw[i], pw[point_nn]))], the smoothed estimate of
    point [i]. *)
Definition smooth_point (pw : list R) (i : Z) (point_nn : list Z) : res R :=
  res_bind (py_index pw i) (fun own =>
  res_bind (res_map (py_index pw) point_nn) (fun neighbours =>
  Ok (np_mean (own :: neighbours)))).

Fixpoint enumerate_from {A : Type} (i : Z) (l : list A) : list (Z * A) :=
  match l with
  | [] => []
  | x :: xs => (i, x) :: enumerate_from (i + 1)%Z xs
  end.

(** [a[i] = v] for [i] in range. *)
Fixpoint list_set {A : Type} (i : nat) (v : A) (a : list A) : list A :=
  match a, i with
  | [], _ => []
  | _ :: xs, O => v :: xs
  | x :: xs, S j => x :: list_set j v xs
  end.

Definition smoothed (o : MLE) : list R :=
  match o.(dimension_pw_smooth_) with
  | Some a => a
  | None => []
  end.

Definition allowed_comb : list string := ["mle"; "mean"; "median"]%string.

(** [fit(self, X, y, precomputed_knn_arrays, smooth, n_neighbors, comb,
    n_jobs)]; the dummy [y] is left out and the returned [self] is the object
    after the call. *)
Definition fit `{Env} (X : array_like)
    (precomputed_knn_arrays : option (list (list R) * list (list Z)))
    (smooth : bool) (n_neighbors : option Z) (comb : string) (n_jobs : Z)
    : M unit :=
  let n_neighbors := match n_neighbors with
                     | None => _N_NEIGHBORS
                     | Some v => v
                     end in
  n_neighbors <-
    (if (len X <=? n_neighbors)%Z
     then warnings_warn "n_neighbors >= len(X), setting n_neighbors = len(X)-1" ;;
          ret (len X - 1)%Z
     else ret n_neighbors) ;;
  self <- get_self ;;
  when (len X <=? self.(K))%Z
       (warnings_warn "self.K >= len(X), setting n_neighbors = len(X)-1" ;;
        modify (set_K (len X - 1))) ;;
  modify (set_n_neighbors n_neighbors) ;;
  modify (set_comb comb) ;;
  X <- lift (check_array X (n_neighbors + 1) 2) ;;
  self <- get_self ;;
  knn <-
    match precomputed_knn_arrays with
    | Some arrays => ret arrays
    | None =>
        let k := if self.(neighborhood_based) then n_neighbors else self.(K) in
        emit (EvNeighborSearch k) ;;
        ret (get_nn X k n_jobs)
    end ;;
  let (dists, knnidx) := knn : list (list R) * list (list Z) in
  (if self.(neighborhood_based)
   then
     pw <- _maxLikPointwiseDimEst dists ;;
     modify (set_dimension_pw_ pw) ;;
     (if String.eqb comb "mean" then modify (set_dimension_ (np_mean pw))
      else if String.eqb comb "median" then modify (set_dimension_ (np_median pw))
      else if String.eqb comb "mle"
      then modify (set_dimension_ (1 / np_mean (map (fun d => 1 / d) pw)))
      else raise (ValueError "Invalid comb parameter. It has to be 'mean' or 'median'")) ;;
     when smooth
       (modify (set_dimension_pw_smooth_ (repeat 0 (length knnidx))) ;;
        for_each
          (fun '(i, point_nn) =>
             v <- lift (smooth_point pw i point_nn) ;;
             modify (fun o => set_dimension_pw_smooth_
                                (list_set (Z.to_nat i) v (smoothed o)) o))
          (enumerate_from 0 knnidx) ;;
        modify (set_is_fitted_pw_smooth_ true)) ;;
     modify (set_is_fitted_pw_ true)
   else
     self <- get_self ;;
     let Rs := slice_to n_neighbors (np_sort (py_set (flatten_F dists))) in
     de <- _fit Rs (sqrt 2 * self.(sigma)) ;;
     modify (set_dimension_ de)) ;;
  modify (set_is_fitted_ true).

(** [fit_predict(...)]: [fit(...).dimension_]. *)
Definition fit_predict `{Env} (X : array_like)
    (precomputed_knn_arrays : option (list (list R) * list (list Z)))
    (smooth : bool) (n_neighbors : option Z) (comb : string) (n_jobs : Z)
    : M R :=
  fit X precomputed_knn_arrays smooth n_neighbors comb n_jobs ;;
  self <- get_self ;;
  match self.(dimension_) with
  | Some d => ret d
  | None => raise (AttributeError "'MLE' object has no attribute 'dimension_'")
  end.

(** ** Reading a call *)

(** The numerical steps a call added to the trace. *)
Definition no_numerical_work (before after : MLE) : Prop :=
  after.(trace) = before.(trace).

(** The object after the two rewrites of [dnoise] at the head of [_fit]. *)
Definition resolve_dnoise (self : MLE) : MLE :=
  let self1 := if dnoise_eq_str self.(dnoise) "dnoiseGaussH"
               then set_dnoise DGaussH self else self in
  if negb (String.eqb self1.(integral_approximation) "Haro")
     && negb (is_None self1.(dnoise))
  then set_dnoise DLambda self1 else self1.

(** The object after one more recorded step. *)
Definition record (e : event) (self : MLE) : MLE :=
  set_trace (self.(trace) ++ [e]) self.

(** A method respects a relation between the object before and after a
    call when every call is in the relation, however it ends. *)
Definition respects (Rel : MLE -> MLE -> Prop) {A : Type} (m : M A) : Prop :=
  forall self, Rel self (fst (m self)).

(** [after] is [before] with more steps recorded, and nothing else
    changed. *)
Definition records_more (before after : MLE) : Prop :=
  exists more, after = set_trace (before.(trace) ++ more) before.

(** The options that no method assigns. *)
Definition same_fixed_options (before after : MLE) : Prop :=
  after.(sigma) = before.(sigma) /\ after.(n) = before.(n) /\
  after.(integral_approximation) = before.(integral_approximation) /\
  after.(unbiased) = before.(unbiased) /\
  after.(neighborhood_based) = before.(neighborhood_based).

(** What [_fit] makes of a value of [dnoise] under a given
    [integral_approximation]. *)
Definition resolved_density (approximation : string) (d : dnoise_val) : dnoise_val :=
  let d1 := if dnoise_eq_str d "dnoiseGaussH" then DGaussH else d in
  if negb (String.eqb approximation "Haro") && negb (is_None d1) then DLambda else d1.

(** What a call leaves of the options: the fixed ones and [K] as they were,
    [dnoise] as it was or resolved. *)
Definition options_frame (before after : MLE) : Prop :=
  same_fixed_options before after /\
  after.(K) = before.(K) /\
  (after.(dnoise) = before.(dnoise) \/
   after.(dnoise) = resolved_density before.(integral_approximation) before.(dnoise)).

(** What a call leaves of the estimates. *)
Definition same_estimates (before after : MLE) : Prop :=
  after.(dimension_) = before.(dimension_) /\
  after.(dimension_pw_) = before.(dimension_pw_).

(** The combination of the pointwise estimates, as the branches of [fit]
    select it. *)
Definition combine (comb : string) (pw : list R) : res R :=
  if String.eqb comb "mean" then Ok (np_mean pw)
  else if String.eqb comb "median" then Ok (np_median pw)
  else if String.eqb comb "mle" then Ok (1 / np_mean (map (fun d => 1 / d) pw))
  else Err (ValueError "Invalid comb parameter. It has to be 'mean' or 'median'").

(** The smoothing loop of [fit]. *)
Definition smooth_phase (pw : list R) (knnidx : list (list Z)) : M unit :=
  modify (set_dimension_pw_smooth_ (repeat 0 (length knnidx))) ;;
  for_each
    (fun '(i, point_nn) =>
       v <- lift (smooth_point pw i point_nn) ;;
       modify (fun o => set_dimension_pw_smooth_
                          (list_set (Z.to_nat i) v (smoothed o)) o))
    (enumerate_from 0 knnidx) ;;
  modify (set_is_fitted_pw_smooth_ true).

(** The neighbour arrays [fit] works on, and the object when it has them. *)
Definition knn_used `{Env} (self : MLE) (rows : list (list R))
    (pre : option (list (list R) * list (list Z))) (n_neighbors n_jobs : Z)
    : list (list R) * list (list Z) :=
  match pre with
  | Some arrays => arrays
  | None => get_nn rows (if self.(neighborhood_based) then n_neighbors else self.(K)) n_jobs
  end.

Definition after_prologue (self : MLE)
    (pre : option (list (list R) * list (list Z))) (n_neighbors : Z) (comb : string)
    : MLE :=
  let self1 := set_comb comb (set_n_neighbors n_neighbors self) in
  match pre with
  | Some _ => self1
  | None => record (EvNeighborSearch
                      (if self.(neighborhood_based) then n_neighbors else self.(K))) self1
  end.

(** The density behind a value of [dnoise] that returns at every point. *)
Definition total_density (d : dnoise_val) : option (R -> R -> R -> option Z -> R) :=
  match d with
  | DGaussH => Some _dnoiseGaussH
  | DFun f => Some f
  | _ => None
  end.

(** The two integrals recorded for each neighbour radius. *)
Definition quad_events (radii : list R) (sigma Rpr : R) : list event :=
  flat_map (fun Rj => [EvQuad Rj sigma 0 Rpr; EvQuad Rj sigma 0 Rpr]) radii.

(** The quotient of the two integrals for one neighbour radius when the
    density returns. *)
Definition ratio_value `{Env} (self : MLE) (Rk sigma Rpr Rj : R) : R :=
  quad (fun x => match numInt self Rk sigma Rj x with Ok v => v | Err _ => 0 end) 0 Rpr
  / quad (fun x => match denomInt self sigma Rj x with Ok v => v | Err _ => 0 end) 0 Rpr.

(** [n_neighbors] as [fit] resolves it. *)
Definition resolved_n_neighbors (n_neighbors : option Z) : Z :=
  match n_neighbors with
  | None => _N_NEIGHBORS
  | Some v => v
  end.

(** The shape [fit] asks of [X]: two dimensions, at least [n_neighbors + 1]
    samples and at least two features. *)
Definition valid_shape (X : array_like) (n_neighbors : Z) : Prop :=
  match X with
  | Arr1 _ => False
  | Arr2 rows =>
      (n_neighbors + 1 <= Z.of_nat (length rows))%Z /\ (2 <= n_features rows)%Z
  end.

(** The closed form of the estimate without noise, in the words of the
    specification: [kfac / sum_i ln (Rk / Rs[i])] with [Rk = max Rs] and
    [kfac = k - 2] when unbiased, else [k - 1]. *)
Definition spec_kfac (unbiased : bool) (k : nat) : Z :=
  if unbiased then (Z.of_nat k - 2)%Z else (Z.of_nat k - 1)%Z.

Definition spec_max (Rs : list R) : R :=
  match Rs with
  | [] => 0
  | x :: xs => fold_right Rmax x xs
  end.

Definition spec_log_ratio_sum (Rs : list R) : R :=
  fold_right (fun Ri acc => ln (spec_max Rs / Ri) + acc) 0 Rs.

Definition spec_no_noise_estimate (unbiased : bool) (Rs : list R) : R :=
  IZR (spec_kfac unbiased (length Rs)) / spec_log_ratio_sum Rs.

(** The combination laws in the words of the specification: the
    arithmetic mean, and the reciprocal of the mean of the reciprocals. *)
Definition spec_mean (a : list R) : R := fold_right Rplus 0 a / INR (length a).

Definition spec_harmonic (a : list R) : R := 1 / spec_mean (map (fun d => 1 / d) a).

(** ** Example inputs *)

(** An environment to run examples in: the midpoint rule for [quad], a
    neighbour search that finds no neighbour, CPython's default recursion
    limit. *)
Definition example_env : Env := {|
  quad := fun f a b => (b - a) * f ((a + b) / 2);
  get_nn := fun X k n_jobs => (map (fun _ => []) X, map (fun _ => []) X);
  recursion_limit := 1000
|}.

(** Six samples in the plane. *)
Definition example_X : array_like :=
  Arr2 [[0; 0]; [1; 0]; [0; 1]; [1; 1]; [2; 0]; [0; 2]].

(** Precomputed neighbour distances and indices for three points. *)
Definition example_knn : list (list R) * list (list Z) :=
  ([[1; 2]; [1; 3]; [2; 4]], [[1; 2]; [0; 2]; [0; 1]]%Z).

(** [MLE()] *)
Definition mle_default : MLE := __init__ DNone 0 None "Haro" false true 5.

(** [MLE(dnoise='dnoiseGaussH', sigma=1)] *)
Definition mle_noise : MLE := __init__ (DStr "dnoiseGaussH") 1 None "Haro" false true 5.

(** [MLE(dnoise='dnoiseGaussH', sigma=1,
    integral_approximation='guaranteed.convergence')] *)
Definition mle_guaranteed : MLE :=
  __init__ (DStr "dnoiseGaussH") 1 None "guaranteed.convergence" false true 5.

(** [MLE(dnoise='dnoiseGaussH', sigma=1, neighborhood_based=False)] *)
Definition mle_global_noise : MLE :=
  __init__ (DStr "dnoiseGaussH") 1 None "Haro" false false 5.

(** [MLE(integral_approximation='iteration')] *)
Definition mle_iteration : MLE := __init__ DNone 0 None "iteration" false true 5.

(** [MLE(integral_approximation='bogus')] *)
Definition mle_bogus : MLE := __init__ DNone 0 None "bogus" false true 5.

(** ** Further notions for reading calls *)

Definition set_unbiased (v : bool) (o : MLE) : MLE :=
  mkMLE o.(dnoise) o.(sigma) o.(n) o.(integral_approximation) v
        o.(neighborhood_based) o.(K) o.(n_neighbors) o.(comb)
        o.(dimension_pw_) o.(dimension_) o.(dimension_pw_smooth_)
        o.(is_fitted_pw_smooth_) o.(is_fitted_pw_) o.(is_fitted_) o.(trace).

(** What one turn of the integration loop returns, apart from what it
    records. *)
Definition ratio_result `{Env} (self : MLE) (Rk sigma Rpr Rj : R) : res R :=
  res_bind (scipy_quad (numInt self Rk sigma Rj) 0 Rpr) (fun numerator =>
  res_bind (scipy_quad (denomInt self sigma Rj) 0 Rpr) (fun denominator =>
  Ok (numerator / denominator))).

(** The neighbour searches recorded in a trace, by their [k]. *)
Definition searches (t : list event) : list Z :=
  flat_map (fun e => match e with
                     | EvNeighborSearch k => [k]
                     | _ => []
                     end) t.

Definition same_searches (before after : MLE) : Prop :=
  searches after.(trace) = searches before.(trace).

(** The attributes [fit] writes, left as they were. *)
Definition same_results (before after : MLE) : Prop :=
  after.(n_neighbors) = before.(n_neighbors) /\
  after.(comb) = before.(comb) /\
  after.(dimension_pw_) = before.(dimension_pw_) /\
  after.(dimension_) = before.(dimension_) /\
  after.(dimension_pw_smooth_) = before.(dimension_pw_smooth_) /\
  after.(is_fitted_pw_smooth_) = before.(is_fitted_pw_smooth_) /\
  after.(is_fitted_pw_) = before.(is_fitted_pw_) /\
  after.(is_fitted_) = before.(is_fitted_).

(** The pointwise attributes, left as they were. *)
Definition same_pointwise (before after : MLE) : Prop :=
  after.(dimension_pw_) = before.(dimension_pw_) /\
  after.(dimension_pw_smooth_) = before.(dimension_pw_smooth_) /\
  after.(is_fitted_pw_smooth_) = before.(is_fitted_pw_smooth_) /\
  after.(is_fitted_pw_) = before.(is_fitted_pw_).

Definition same_is_fitted (before after : MLE) : Prop :=
  after.(is_fitted_) = before.(is_fitted_).


(** [MLE(dnoise='foo', sigma=1)]: a name that is not a density. *)
Definition mle_unknown_noise : MLE := __init__ (DStr "foo") 1 None "Haro" false true 5.

(** [MLE(neighborhood_based=False)] *)
Definition mle_global : MLE := __init__ DNone 0 None "Haro" false false 5.

(** ** The estimate without noise on binary64 values *)

(** The branch without noise of [_maxLikDimEstFromR_haro_approx], lines
    294-299, on IEEE 754 binary64 values.  [np.log] and [np.sum] are
    arguments: of the logarithm only its values at 1 and at NaN are used, of
    the sum only that a sum of zeros is zero and a sum of NaNs is NaN
    ([log_like], [sum_like]). *)













(** ** Basic facts *)

Lemma known_approximation_In (s : string) :
  existsb (String.eqb s) known_approximations = true <-> In s known_approximations.
Proof.
  rewrite existsb_exists. split.
  - intros [x [Hin Heq]]. apply String.eqb_eq in Heq. now subst.
  - intros Hin. exists s. split; [assumption | apply String.eqb_refl].
Qed.

(** The closure stored by [_fit] calls the attribute that holds it: the call
    uses up any recursion limit. *)
Lemma call_dnoise_lambda (depth : nat) (r s sg : R) (k : option Z) :
  call_dnoise depth DLambda DLambda r s sg k = Err RecursionError.
Proof.
  induction depth as [|d IH]; simpl.
  - reflexivity.
  - rewrite IH. reflexivity.
Qed.

(** Had the closure captured the density instead of the object, it would be
    [r] times the density. *)
Lemma call_dnoise_lambda_over (depth : nat) (f : R -> R -> R -> option Z -> R)
    (r s sg : R) (k : option Z) :
  call_dnoise (S depth) (DFun f) DLambda r s sg k = Ok (r * f r s sg k).
Proof. destruct depth; reflexivity. Qed.

Lemma resolve_dnoise_frame (self : MLE) :
  let self' := resolve_dnoise self in
  self'.(sigma) = self.(sigma) /\ self'.(n) = self.(n) /\
  self'.(integral_approximation) = self.(integral_approximation) /\
  self'.(unbiased) = self.(unbiased) /\
  self'.(neighborhood_based) = self.(neighborhood_based) /\
  self'.(K) = self.(K) /\ self'.(trace) = self.(trace).
Proof.
  unfold resolve_dnoise.
  destruct (dnoise_eq_str (dnoise self) "dnoiseGaussH"); simpl;
    match goal with |- context [if ?c then _ else _] => destruct c end;
    simpl; repeat split; reflexivity.
Qed.

Lemma resolve_dnoise_None (self : MLE) :
  self.(dnoise) = DNone -> resolve_dnoise self = self.
Proof.
  intros Hd. unfold resolve_dnoise. rewrite Hd. simpl. rewrite Hd. simpl.
  rewrite andb_false_r. reflexivity.
Qed.

Lemma resolve_dnoise_lambda (self : MLE) :
  self.(integral_approximation) <> "Haro"%string -> self.(dnoise) <> DNone ->
  (resolve_dnoise self).(dnoise) = DLambda.
Proof.
  intros HIA Hd. unfold resolve_dnoise.
  apply String.eqb_neq in HIA.
  destruct (dnoise_eq_str (dnoise self) "dnoiseGaussH"); simpl; rewrite HIA; simpl.
  - reflexivity.
  - destruct (dnoise self); try contradiction; reflexivity.
Qed.

(** [_fit], with the rewrites of [dnoise] gathered in [resolve_dnoise]. *)
Lemma _fit_eq `{Env} (Rs : list R) (sg : R) (self : MLE) :
  _fit Rs sg self =
  if negb (existsb (String.eqb self.(integral_approximation)) known_approximations)
  then (self, Err (ValueError "Unknown integral_approximation parameter"))
  else
    match _maxLikDimEstFromR_haro_approx Rs self.(sigma) (resolve_dnoise self) with
    | (self', Ok de) =>
        if String.eqb self.(integral_approximation) "iteration"
        then (self', Err (ValueError "integral_approximation='iteration' not implemented yet. See R intrinsicDimension package"))
        else (self', Ok de)
    | (self', Err e) => (self', Err e)
    end.
Proof.
  unfold _fit, bind, get_self, resolve_dnoise, when, modify, ret, raise.
  destruct (negb (existsb _ _)); [reflexivity|].
  destruct (dnoise_eq_str (dnoise self) "dnoiseGaussH"); simpl;
    match goal with |- context [if negb ?c && ?d then _ else _] => destruct (negb c && d) end;
    simpl;
    match goal with |- context [_maxLikDimEstFromR_haro_approx ?a ?b ?c] =>
      destruct (_maxLikDimEstFromR_haro_approx a b c) as [self' [de|e]] end;
    try reflexivity;
    destruct (String.eqb (integral_approximation self) "iteration"); reflexivity.
Qed.

(** The estimator without a noise model: one recorded step and the closed
    form, or the exception of [np.max] on an empty array. *)
Lemma haro_approx_no_noise `{Env} (Rs : list R) (sg : R) (self : MLE) :
  self.(dnoise) = DNone ->
  _maxLikDimEstFromR_haro_approx Rs sg self =
  (record (EvEstimate Rs sg) self,
   res_bind (np_max Rs) (fun Rk =>
     Ok (IZR (if self.(unbiased)
              then Z.of_nat (length Rs) - 2 else Z.of_nat (length Rs) - 1)
         / np_sum (map (fun Ri => ln (Rk / Ri)) Rs)))).
Proof.
  intros Hd.
  unfold _maxLikDimEstFromR_haro_approx, bind, emit, modify, get_self, lift, record.
  simpl. destruct (np_max Rs) as [Rk|e]; simpl; [|reflexivity].
  rewrite Hd. reflexivity.
Qed.

(** With the closure of [_fit] in [dnoise] and at least two distances, the
    first integral raises. *)
Lemma haro_approx_lambda `{Env} (Rs : list R) (sg : R) (self : MLE) :
  self.(dnoise) = DLambda -> (2 <= length Rs)%nat ->
  exists Rj Rk,
    _maxLikDimEstFromR_haro_approx Rs sg self =
    (record (EvQuad Rj sg 0 (Rk + 100 * sg)) (record (EvEstimate Rs sg) self),
     Err RecursionError).
Proof.
  intros Hd Hlen.
  destruct Rs as [|R0 [|R1 Rs]]; simpl in Hlen; try lia.
  exists R0, (fold_left Rmax (R1 :: Rs) R0).
  unfold _maxLikDimEstFromR_haro_approx, bind, emit, modify, get_self, lift, record.
  cbn [np_max set_trace dnoise trace]. rewrite Hd. cbn [is_None].
  unfold slice_to.
  replace (0 <=? Z.of_nat (length (R0 :: R1 :: Rs)) - 1)%Z with true
    by (symmetry; apply Z.leb_le; simpl length; lia).
  replace (Z.to_nat (Z.of_nat (length (R0 :: R1 :: Rs)) - 1))
    with (S (length Rs)) by (simpl length; lia).
  cbn [firstn for_each].
  unfold integral_ratio, bind, emit, modify, lift, scipy_quad, numInt, self_dnoise_call.
  cbn [set_trace dnoise trace]. rewrite Hd, call_dnoise_lambda.
  reflexivity.
Qed.

(** ** Frames: what a method leaves as it was *)

Lemma set_trace_trace (t : list event) (o : MLE) : (set_trace t o).(trace) = t.
Proof. reflexivity. Qed.

Lemma set_trace_twice (t u : list event) (o : MLE) :
  set_trace u (set_trace t o) = set_trace u o.
Proof. reflexivity. Qed.

Lemma set_trace_same (o : MLE) : set_trace o.(trace) o = o.
Proof. destruct o; reflexivity. Qed.

Section Respects.

(** A relation between the object before and after a call that holds of
    doing nothing and of doing two things in a row. *)
Variable Rel : MLE -> MLE -> Prop.
Hypothesis Rel_refl : forall o, Rel o o.
Hypothesis Rel_trans : forall o1 o2 o3, Rel o1 o2 -> Rel o2 o3 -> Rel o1 o3.

Lemma respects_ret {A : Type} (v : A) : respects Rel (ret v).
Proof. intros self. apply Rel_refl. Qed.

Lemma respects_raise {A : Type} (e : exn) : respects Rel (@raise A e).
Proof. intros self. apply Rel_refl. Qed.

Lemma respects_lift {A : Type} (r : res A) : respects Rel (lift r).
Proof. intros self. apply Rel_refl. Qed.

Lemma respects_get_self : respects Rel get_self.
Proof. intros self. apply Rel_refl. Qed.

Lemma respects_modify (f : MLE -> MLE) :
  (forall o, Rel o (f o)) -> respects Rel (modify f).
Proof. intros Hf self. apply Hf. Qed.

Lemma respects_bind {A B : Type} (m : M A) (f : A -> M B) :
  respects Rel m -> (forall x, respects Rel (f x)) -> respects Rel (bind m f).
Proof.
  intros Hm Hf self. unfold bind.
  specialize (Hm self). destruct (m self) as [self' [v|e]]; simpl in *.
  - eapply Rel_trans; [exact Hm | apply Hf].
  - exact Hm.
Qed.

Lemma respects_when (b : bool) (m : M unit) : respects Rel m -> respects Rel (when b m).
Proof. intros Hm. destruct b; simpl; [exact Hm | apply respects_ret]. Qed.

Lemma respects_for_each {A B : Type} (f : A -> M B) (l : list A) :
  (forall x, respects Rel (f x)) -> respects Rel (for_each f l).
Proof.
  intros Hf. induction l as [|x xs IH]; simpl.
  - apply respects_ret.
  - apply respects_bind; [apply Hf | intros y].
    apply respects_bind; [exact IH | intros ys; apply respects_ret].
Qed.

End Respects.

Lemma records_more_refl (o : MLE) : records_more o o.
Proof. exists []. rewrite app_nil_r. symmetry. apply set_trace_same. Qed.

Lemma records_more_trans (o1 o2 o3 : MLE) :
  records_more o1 o2 -> records_more o2 o3 -> records_more o1 o3.
Proof.
  intros [m1 H1] [m2 H2]. exists (m1 ++ m2). subst o3 o2.
  rewrite set_trace_trace, set_trace_twice, app_assoc. reflexivity.
Qed.

Lemma records_more_emit (e : event) : respects records_more (emit e).
Proof. intros self. exists [e]. reflexivity. Qed.

Lemma resolve_dnoise_density (o : MLE) :
  (resolve_dnoise o).(dnoise) = resolved_density o.(integral_approximation) o.(dnoise).
Proof.
  unfold resolve_dnoise, resolved_density.
  destruct (dnoise_eq_str (dnoise o) "dnoiseGaussH"); simpl;
    match goal with |- context [if ?c then _ else _] => destruct c end; reflexivity.
Qed.

Lemma resolved_density_twice (ia : string) (d : dnoise_val) :
  resolved_density ia (resolved_density ia d) = resolved_density ia d.
Proof.
  unfold resolved_density.
  destruct (String.eqb ia "Haro"); destruct d as [|name| | |]; simpl;
    try reflexivity;
    destruct (String.eqb name "dnoiseGaussH") eqn:E; simpl; try rewrite E; reflexivity.
Qed.

Lemma options_frame_refl (o : MLE) : options_frame o o.
Proof. repeat split; auto. Qed.

Lemma options_frame_trans (o1 o2 o3 : MLE) :
  options_frame o1 o2 -> options_frame o2 o3 -> options_frame o1 o3.
Proof.
  unfold options_frame, same_fixed_options.
  intros ((Hs1 & Hn1 & Hi1 & Hu1 & Hb1) & HK1 & Hd1)
         ((Hs2 & Hn2 & Hi2 & Hu2 & Hb2) & HK2 & Hd2).
  repeat split; try congruence.
  rewrite Hi1 in Hd2.
  destruct Hd2 as [Hd2|Hd2]; destruct Hd1 as [Hd1|Hd1]; rewrite Hd2, ?Hd1;
    rewrite ?resolved_density_twice; auto.
Qed.

Lemma records_more_options_frame (o o' : MLE) :
  records_more o o' -> options_frame o o'.
Proof. intros [more ->]. repeat split; auto. Qed.

Lemma same_estimates_refl (o : MLE) : same_estimates o o.
Proof. split; reflexivity. Qed.

Lemma same_estimates_trans (o1 o2 o3 : MLE) :
  same_estimates o1 o2 -> same_estimates o2 o3 -> same_estimates o1 o3.
Proof. unfold same_estimates. intros [? ?] [? ?]. split; congruence. Qed.

Ltac frame_step Rel_refl Rel_trans :=
  first
    [ apply (respects_bind _ Rel_trans)
    | apply (respects_ret _ Rel_refl)
    | apply (respects_raise _ Rel_refl)
    | apply (respects_lift _ Rel_refl)
    | apply (respects_get_self _ Rel_refl)
    | apply (respects_when _ Rel_refl)
    | apply (respects_for_each _ Rel_refl Rel_trans) ];
  try intros ?.

(** The estimator records its entry, then only further steps. *)
Lemma haro_approx_records `{Env} (Rs : list R) (sg : R) (self : MLE) :
  records_more (record (EvEstimate Rs sg) self)
               (fst (_maxLikDimEstFromR_haro_approx Rs sg self)).
Proof.
  unfold _maxLikDimEstFromR_haro_approx.
  change (emit (EvEstimate Rs sg) ;; ?k) with (bind (emit (EvEstimate Rs sg)) (fun _ => k)).
  unfold bind at 1. unfold emit at 1, modify at 1. fold (record (EvEstimate Rs sg) self).
  match goal with |- records_more ?o (fst (?m ?o)) =>
    assert (Hm : respects records_more m); [| exact (Hm o)] end.
  repeat frame_step records_more_refl records_more_trans;
    try apply records_more_emit.
  match goal with |- respects _ (if ?c then _ else _) => destruct c end;
    repeat frame_step records_more_refl records_more_trans;
    try apply records_more_emit.
Qed.

(** What [_fit] does to the object: nothing when the approximation is
    unknown; otherwise the rewrites of [dnoise], the entry of the estimator
    and further recorded steps. *)
Lemma _fit_state `{Env} (Rs : list R) (sg : R) (self : MLE) :
  fst (_fit Rs sg self) = self \/
  records_more (record (EvEstimate Rs self.(sigma)) (resolve_dnoise self))
               (fst (_fit Rs sg self)).
Proof.
  rewrite _fit_eq.
  destruct (negb (existsb _ _)); [left; reflexivity | right].
  pose proof (haro_approx_records Rs (sigma self) (resolve_dnoise self)) as Hrec.
  destruct (_maxLikDimEstFromR_haro_approx Rs (sigma self) (resolve_dnoise self))
    as [self' [de|e]]; simpl in *; [|exact Hrec].
  destruct (String.eqb _ _); exact Hrec.
Qed.

(** [fit] stops at the unbound name [warnings] as soon as one of the two
    clamps applies, before it has written any attribute. *)
Lemma fit_unbound_warnings `{Env} (X : array_like)
    (pre : option (list (list R) * list (list Z))) (smooth : bool)
    (nn : option Z) (comb : string) (n_jobs : Z) (self : MLE) :
  (len X <= resolved_n_neighbors nn \/ len X <= self.(K))%Z ->
  fit X pre smooth nn comb n_jobs self =
  (self, Err (NameError "name 'warnings' is not defined")).
Proof.
  intros Hclamp. unfold fit. fold (resolved_n_neighbors nn).
  destruct (Z.leb_spec (len X) (resolved_n_neighbors nn)) as [Hnn|Hnn].
  - reflexivity.
  - destruct Hclamp as [Hc|Hc]; [lia|].
    apply Z.leb_le in Hc.
    unfold bind at 1. unfold ret at 1. unfold bind at 1. unfold get_self at 1.
    unfold bind at 1. rewrite Hc. reflexivity.
Qed.

(** Past the two clamps, [fit] has written [n_neighbors] and [comb] when it
    checks the shape of [X]. *)
Lemma fit_bad_shape `{Env} (X : array_like)
    (pre : option (list (list R) * list (list Z))) (smooth : bool)
    (nn : option Z) (comb : string) (n_jobs : Z) (self : MLE) (e : exn) :
  (resolved_n_neighbors nn < len X)%Z -> (self.(K) < len X)%Z ->
  check_array X (resolved_n_neighbors nn + 1) 2 = Err e ->
  fit X pre smooth nn comb n_jobs self =
  (set_comb comb (set_n_neighbors (resolved_n_neighbors nn) self), Err e).
Proof.
  intros Hnn HK Hcheck. unfold fit. fold (resolved_n_neighbors nn).
  apply Z.leb_gt in Hnn. apply Z.leb_gt in HK.
  rewrite Hnn.
  unfold bind at 1. unfold ret at 1. unfold bind at 1. unfold get_self at 1.
  unfold bind at 1. rewrite HK. unfold when at 1. unfold ret at 1.
  unfold bind at 1. unfold modify at 1. unfold bind at 1. unfold modify at 1.
  unfold bind at 1. unfold lift at 1. rewrite Hcheck. reflexivity.
Qed.

(** ** Sums, maxima and logarithms *)

Lemma fold_left_Rplus (a : list R) (acc : R) :
  fold_left Rplus a acc = acc + fold_right Rplus 0 a.
Proof.
  revert acc. induction a as [|x xs IH]; intros acc; simpl.
  - lra.
  - rewrite IH. lra.
Qed.

Lemma np_sum_map {A : Type} (f : A -> R) (a : list A) :
  np_sum (map f a) = fold_right (fun x acc => f x + acc) 0 a.
Proof.
  unfold np_sum. rewrite fold_left_Rplus, Rplus_0_l.
  induction a as [|x xs IH]; simpl; [reflexivity | now rewrite IH].
Qed.

Lemma fold_left_Rmax (a : list R) (x : R) :
  fold_left Rmax a x = fold_right Rmax x a.
Proof.
  apply fold_symmetric.
  - intros p q r. apply Rmax_assoc.
  - intros y. apply Rmax_comm.
Qed.

Lemma np_max_spec (Rs : list R) : Rs <> [] -> np_max Rs = Ok (spec_max Rs).
Proof.
  destruct Rs as [|x xs]; [contradiction|]. intros _. simpl.
  now rewrite fold_left_Rmax.
Qed.





(** ** Bounds on the golden value *)

Lemma exp_square_lower (a b y : R) :
  0 <= a -> a <= exp (y / 2) -> b <= a * a -> b <= exp y.
Proof.
  intros Ha Hle Hb.
  replace y with (y / 2 + y / 2) by lra. rewrite exp_plus.
  pose proof (exp_pos (y / 2)). nra.
Qed.

Lemma exp_lower_3_2653 : 625 / 24 < exp 3.2653.
Proof.
  apply Rlt_le_trans with 26.119957793677; [lra|].
  apply (exp_square_lower 5.110768806518); [lra| |lra].
  apply (exp_square_lower 2.260700954686); [lra| |lra].
  apply (exp_square_lower 1.503562753824); [lra| |lra].
  apply (exp_square_lower 1.226198496910); [lra| |lra].
  apply (exp_square_lower 1.107338474411); [lra| |lra].
  apply (exp_square_lower 1.052301513071); [lra| |lra].
  apply (exp_square_lower 1.025817485263); [lra| |lra].
  apply (exp_square_lower 1.012826483295); [lra| |lra].
  apply (exp_square_lower 1.006392807653); [lra| |lra].
  apply (exp_square_lower 1.003191311592); [lra| |lra].
  apply (exp_square_lower 1.001594384765); [lra| |lra].
  eapply Rle_trans; [|apply exp_ineq1_le]. lra.
Qed.

Lemma exp_upper_3_2521 : exp 3.2521 < 625 / 24.
Proof.
  assert (Hlow : 0.038592982907 <= exp (Ropp 3.2521)).
  { apply (exp_square_lower 0.196450968202); [lra| |lra].
    apply (exp_square_lower 0.443227896462); [lra| |lra].
    apply (exp_square_lower 0.665753630454); [lra| |lra].
    apply (exp_square_lower 0.815937271152); [lra| |lra].
    apply (exp_square_lower 0.903292461583); [lra| |lra].
    apply (exp_square_lower 0.950416993526); [lra| |lra].
    apply (exp_square_lower 0.974893324178); [lra| |lra].
    apply (exp_square_lower 0.987366864027); [lra| |lra].
    apply (exp_square_lower 0.993663355482); [lra| |lra].
    apply (exp_square_lower 0.996826642643); [lra| |lra].
    apply (exp_square_lower 0.998412060546); [lra| |lra].
    eapply Rle_trans; [|apply exp_ineq1_le]. lra. }
  rewrite exp_Ropp in Hlow.
  pose proof (exp_pos 3.2521) as Hpos.
  assert (Hinv : exp 3.2521 * / exp 3.2521 = 1) by (field; lra).
  nra.
Qed.

Lemma golden_log_sum :
  ln (5 / 1) + ln (5 / 2) + ln (5 / 3) + ln (5 / 4) + ln (5 / 5) = ln (625 / 24).
Proof.
  replace (5 / 5) with 1 by lra. rewrite ln_1, Rplus_0_r.
  rewrite <- !ln_mult by lra. f_equal. lra.
Qed.

Lemma golden_log_sum_bounds : 3.2521 < ln (625 / 24) < 3.2653.
Proof.
  split.
  - rewrite <- (ln_exp 3.2521). apply ln_increasing; [apply exp_pos|].
    apply exp_upper_3_2521.
  - rewrite <- (ln_exp 3.2653). apply ln_increasing; [lra|].
    apply exp_lower_3_2653.
Qed.

Lemma golden_value_bounds :
  1.225 < 4 / (ln (5 / 1) + ln (5 / 2) + ln (5 / 3) + ln (5 / 4) + ln (5 / 5)) < 1.23.
Proof.
  rewrite golden_log_sum.
  destruct golden_log_sum_bounds as [Hlo Hhi].
  set (S := ln (625 / 24)) in *.
  assert (HS : 0 < S) by lra.
  split.
  - apply Rmult_lt_reg_r with S; [exact HS|].
    unfold Rdiv. rewrite Rmult_assoc, Rinv_l by lra. lra.
  - apply Rmult_lt_reg_r with S; [exact HS|].
    unfold Rdiv. rewrite Rmult_assoc, Rinv_l by lra. lra.
Qed.

Lemma golden_run `{Env} (sg : R) (self : MLE) :
  self.(dnoise) = DNone -> self.(unbiased) = false ->
  snd (_maxLikDimEstFromR_haro_approx [1; 2; 3; 4; 5] sg self) =
  Ok (4 / (ln (5 / 1) + ln (5 / 2) + ln (5 / 3) + ln (5 / 4) + ln (5 / 5))).
Proof.
  intros Hd Hu. rewrite haro_approx_no_noise by exact Hd. rewrite Hu.
  cbn [snd np_max fold_left res_bind].
  rewrite (Rmax_right 1 2), (Rmax_right 2 3), (Rmax_right 3 4), (Rmax_right 4 5) by lra.
  cbn [length map np_sum fold_left]. unfold np_sum. cbn [fold_left].
  rewrite Rplus_0_l. do 2 f_equal.
Qed.

(** [fit] past its checks: the pointwise estimates, their combination and
    the smoothing in neighbourhood-based mode; one estimate from the
    distinct distances otherwise. *)
Lemma fit_eq `{Env} (X : array_like)
    (pre : option (list (list R) * list (list Z))) (smooth : bool)
    (nn : option Z) (comb : string) (n_jobs : Z) (self : MLE)
    (rows : list (list R)) :
  (resolved_n_neighbors nn < len X)%Z -> (self.(K) < len X)%Z ->
  check_array X (resolved_n_neighbors nn + 1) 2 = Ok rows ->
  fit X pre smooth nn comb n_jobs self =
  let n_nb := resolved_n_neighbors nn in
  let self1 := after_prologue self pre n_nb comb in
  let dists := fst (knn_used self rows pre n_nb n_jobs) in
  let knnidx := snd (knn_used self rows pre n_nb n_jobs) in
  if self.(neighborhood_based) then
    match _maxLikPointwiseDimEst dists self1 with
    | (s2, Err e) => (s2, Err e)
    | (s2, Ok pw) =>
        match combine comb pw with
        | Err e => (set_dimension_pw_ pw s2, Err e)
        | Ok d =>
            match when smooth (smooth_phase pw knnidx)
                       (set_dimension_ d (set_dimension_pw_ pw s2)) with
            | (s3, Err e) => (s3, Err e)
            | (s3, Ok _) => (set_is_fitted_ true (set_is_fitted_pw_ true s3), Ok tt)
            end
        end
    end
  else
    match _fit (slice_to n_nb (np_sort (py_set (flatten_F dists))))
               (sqrt 2 * self.(sigma)) self1 with
    | (s2, Err e) => (s2, Err e)
    | (s2, Ok de) => (set_is_fitted_ true (set_dimension_ de s2), Ok tt)
    end.
Proof.
  intros Hnn HK Hcheck. unfold fit. fold (resolved_n_neighbors nn).
  apply Z.leb_gt in Hnn. apply Z.leb_gt in HK.
  rewrite Hnn.
  unfold bind at 1. unfold ret at 1. unfold bind at 1. unfold get_self at 1.
  unfold bind at 1. rewrite HK. unfold when at 1. unfold ret at 1.
  unfold bind at 1. unfold modify at 1. unfold bind at 1. unfold modify at 1.
  unfold bind at 1. unfold lift at 1. rewrite Hcheck.
  unfold bind at 1. unfold get_self at 1.
  cbn [neighborhood_based set_comb set_n_neighbors K].
  cbv zeta.
  assert (Hknn :
    (match pre with
     | Some arrays => ret arrays
     | None =>
         emit (EvNeighborSearch
                 (if neighborhood_based self then resolved_n_neighbors nn else K self)) ;;
         ret (get_nn rows (if neighborhood_based self
                           then resolved_n_neighbors nn else K self) n_jobs)
     end) (set_comb comb (set_n_neighbors (resolved_n_neighbors nn) self)) =
    (after_prologue self pre (resolved_n_neighbors nn) comb,
     Ok (knn_used self rows pre (resolved_n_neighbors nn) n_jobs))).
  { destruct pre; reflexivity. }
  unfold bind at 1. rewrite Hknn.
  destruct (knn_used self rows pre (resolved_n_neighbors nn) n_jobs) as [dists knnidx].
  cbn [fst snd].
  destruct (neighborhood_based self).
  - unfold bind at 1. unfold bind at 1.
    destruct (_maxLikPointwiseDimEst dists _) as [s2 [pw|e]]; [|reflexivity].
    unfold bind at 1. unfold modify at 1. unfold bind at 1. unfold combine.
    destruct (String.eqb comb "mean").
    { unfold modify at 1. unfold bind at 1. fold (smooth_phase pw knnidx).
      destruct (when smooth (smooth_phase pw knnidx) _) as [s3 [[]|e]]; reflexivity. }
    destruct (String.eqb comb "median").
    { unfold modify at 1. unfold bind at 1. fold (smooth_phase pw knnidx).
      destruct (when smooth (smooth_phase pw knnidx) _) as [s3 [[]|e]]; reflexivity. }
    destruct (String.eqb comb "mle").
    { unfold modify at 1. unfold bind at 1. fold (smooth_phase pw knnidx).
      destruct (when smooth (smooth_phase pw knnidx) _) as [s3 [[]|e]]; reflexivity. }
    reflexivity.
  - unfold bind at 1. unfold bind at 1. unfold get_self at 1. unfold bind at 1.
    assert (Hsig : sigma (after_prologue self pre (resolved_n_neighbors nn) comb)
                   = sigma self) by (destruct pre; reflexivity).
    rewrite Hsig.
    match goal with |- context [_fit ?a ?b ?c] =>
      destruct (_fit a b c) as [s2 [de|e]] end; reflexivity.
Qed.


(** Deciding comparisons of concrete reals. *)
Ltac decide_reals :=
  repeat match goal with
  | |- context [Rle_dec ?a ?b] =>
      destruct (Rle_dec a b); [ try (exfalso; lra) | try (exfalso; lra) ]
  | |- context [in_dec Req_dec_T ?a ?l] =>
      let Hin := fresh "Hin" in
      destruct (in_dec Req_dec_T a l) as [Hin|Hin];
      [ try (exfalso; simpl in Hin; intuition lra)
      | try (exfalso; apply Hin; simpl; intuition lra) ]
  end.

(** The distinct distances of the example arrays, ascending, cut to two. *)
Lemma example_distance_vector :
  slice_to 2 (np_sort (py_set (flatten_F (fst example_knn)))) = [1; 2].
Proof.
  unfold example_knn, flatten_F, py_set, np_sort.
  cbn [fst hd length columns map tl concat app nodup].
  decide_reals. cbn [fold_right insert_sorted]. decide_reals.
  cbn [insert_sorted]. decide_reals. cbn [insert_sorted]. decide_reals.
  reflexivity.
Qed.


(** A density that returns: the integrals are taken, each one recorded. *)
Lemma self_dnoise_call_total `{Env} (self : MLE) (f : R -> R -> R -> option Z -> R)
    (r s sg : R) (k : option Z) :
  total_density self.(dnoise) = Some f ->
  self_dnoise_call self r s sg k = Ok (f r s sg k).
Proof.
  unfold self_dnoise_call. intros Hf.
  destruct (dnoise self); simpl in Hf; try discriminate;
    injection Hf as <-; destruct recursion_limit; reflexivity.
Qed.

Lemma integral_ratio_total `{Env} (self0 : MLE) (f : R -> R -> R -> option Z -> R)
    (Rk sg Rpr Rj : R) (s : MLE) :
  total_density self0.(dnoise) = Some f ->
  integral_ratio self0 Rk sg Rpr Rj s =
  (set_trace (s.(trace) ++ quad_events [Rj] sg Rpr) s,
   Ok (ratio_value self0 Rk sg Rpr Rj)).
Proof.
  intros Hf.
  unfold integral_ratio, bind, emit, modify, lift, ret, scipy_quad, numInt, denomInt.
  rewrite !(self_dnoise_call_total self0 f) by exact Hf.
  cbn [res_bind set_trace trace quad_events flat_map app].
  rewrite <- app_assoc. reflexivity.
Qed.

Lemma integral_loop_total `{Env} (self0 : MLE) (f : R -> R -> R -> option Z -> R)
    (Rk sg Rpr : R) (radii : list R) (s : MLE) :
  total_density self0.(dnoise) = Some f ->
  for_each (integral_ratio self0 Rk sg Rpr) radii s =
  (set_trace (s.(trace) ++ quad_events radii sg Rpr) s,
   Ok (map (ratio_value self0 Rk sg Rpr) radii)).
Proof.
  intros Hf. revert s. induction radii as [|Rj radii IH]; intros s.
  - simpl. unfold ret. rewrite app_nil_r, set_trace_same. reflexivity.
  - cbn [for_each]. unfold bind at 1.
    rewrite (integral_ratio_total self0 f) by exact Hf.
    unfold bind at 1. rewrite IH. unfold ret.
    rewrite set_trace_trace, set_trace_twice.
    cbn [quad_events flat_map app map]. rewrite <- app_assoc. reflexivity.
Qed.

Lemma haro_approx_total `{Env} (Rs : list R) (sg : R) (self : MLE)
    (f : R -> R -> R -> option Z -> R) (Rk : R) :
  total_density self.(dnoise) = Some f -> np_max Rs = Ok Rk ->
  let radii := slice_to (Z.of_nat (length Rs) - 1) Rs in
  let Rpr := Rk + 100 * sg in
  exists de,
    _maxLikDimEstFromR_haro_approx Rs sg self =
    (set_trace (self.(trace) ++ EvEstimate Rs sg :: quad_events radii sg Rpr) self,
     Ok de).
Proof.
  intros Hf Hmax radii Rpr.
  eexists.
  unfold _maxLikDimEstFromR_haro_approx, bind, emit, modify, get_self, lift.
  rewrite Hmax.
  assert (Hnone : is_None (dnoise (set_trace (trace self ++ [EvEstimate Rs sg]) self))
                  = false).
  { simpl. destruct (dnoise self); simpl in Hf; try discriminate; reflexivity. }
  rewrite Hnone.
  rewrite (integral_loop_total _ f) by exact Hf.
  unfold ret. rewrite set_trace_trace, set_trace_twice, <- app_assoc.
  reflexivity.
Qed.


(** [_fit] without noise in "Haro" mode: one recorded step, the closed
    form returned. *)
Lemma _fit_no_noise `{Env} (Rs : list R) (sg : R) (self : MLE) :
  self.(dnoise) = DNone -> self.(integral_approximation) = "Haro"%string ->
  Rs <> [] ->
  _fit Rs sg self =
  (record (EvEstimate Rs self.(sigma)) self,
   Ok (spec_no_noise_estimate self.(unbiased) Rs)).
Proof.
  intros Hd HIA Hne.
  rewrite _fit_eq, HIA. cbn [existsb known_approximations String.eqb Ascii.eqb Bool.eqb orb negb].
  rewrite (resolve_dnoise_None self Hd), haro_approx_no_noise by exact Hd.
  rewrite np_max_spec by exact Hne. cbn [res_bind].
  unfold spec_no_noise_estimate, spec_kfac, spec_log_ratio_sum.
  rewrite np_sum_map. reflexivity.
Qed.

Lemma pointwise_no_noise `{Env} (dists : list (list R)) (self : MLE) :
  self.(dnoise) = DNone -> self.(integral_approximation) = "Haro"%string ->
  Forall (fun Rs => Rs <> []) dists ->
  _maxLikPointwiseDimEst dists self =
  (set_trace (self.(trace) ++ map (fun Rs => EvEstimate Rs self.(sigma)) dists) self,
   Ok (map (spec_no_noise_estimate self.(unbiased)) dists)).
Proof.
  intros Hd HIA Hne. unfold _maxLikPointwiseDimEst.
  revert self Hd HIA. induction Hne as [|Rs dists HRs Hne IH]; intros self Hd HIA.
  - simpl. unfold ret. rewrite app_nil_r, set_trace_same. reflexivity.
  - cbn [for_each]. unfold bind at 1. unfold bind at 1. unfold get_self at 1.
    rewrite _fit_no_noise by assumption.
    unfold bind at 1. rewrite IH by assumption.
    unfold ret, record. cbn [trace set_trace sigma unbiased map].
    rewrite <- app_assoc. reflexivity.
Qed.

(** The options through the methods. *)
Lemma _fit_options_frame `{Env} (Rs : list R) (sg : R) :
  respects options_frame (_fit Rs sg).
Proof.
  intros self. destruct (_fit_state Rs sg self) as [->|Hrec].
  - apply options_frame_refl.
  - apply options_frame_trans with (record (EvEstimate Rs (sigma self)) (resolve_dnoise self)).
    + pose proof (resolve_dnoise_frame self) as (Hs & Hn & Hi & Hu & Hb & HK & _).
      repeat split; try assumption.
      right. apply resolve_dnoise_density.
    + apply records_more_options_frame. exact Hrec.
Qed.

Lemma pointwise_options_frame `{Env} (dists : list (list R)) :
  respects options_frame (_maxLikPointwiseDimEst dists).
Proof.
  apply (respects_for_each _ options_frame_refl options_frame_trans).
  intros Rs.
  apply (respects_bind _ options_frame_trans);
    [apply (respects_get_self _ options_frame_refl) | intros self].
  apply _fit_options_frame.
Qed.

Ltac frame_setter :=
  apply respects_modify; intros ?; repeat split; auto.

Lemma smooth_phase_same_estimates (pw : list R) (knnidx : list (list Z)) (smooth : bool) :
  respects same_estimates (when smooth (smooth_phase pw knnidx)).
Proof.
  apply (respects_when _ same_estimates_refl). unfold smooth_phase.
  apply (respects_bind _ same_estimates_trans); [frame_setter | intros _].
  apply (respects_bind _ same_estimates_trans); [| intros _; frame_setter].
  apply (respects_for_each _ same_estimates_refl same_estimates_trans). intros [i point_nn].
  apply (respects_bind _ same_estimates_trans);
    [apply (respects_lift _ same_estimates_refl) | intros v; frame_setter].
Qed.

Lemma smooth_phase_options_frame (pw : list R) (knnidx : list (list Z)) (smooth : bool) :
  respects options_frame (when smooth (smooth_phase pw knnidx)).
Proof.
  apply (respects_when _ options_frame_refl). unfold smooth_phase.
  apply (respects_bind _ options_frame_trans); [frame_setter | intros _].
  apply (respects_bind _ options_frame_trans); [| intros _; frame_setter].
  apply (respects_for_each _ options_frame_refl options_frame_trans). intros [i point_nn].
  apply (respects_bind _ options_frame_trans);
    [apply (respects_lift _ options_frame_refl) | intros v; frame_setter].
Qed.

Lemma fit_respects_options `{Env} (X : array_like)
    (pre : option (list (list R) * list (list Z))) (smooth : bool)
    (nn : option Z) (comb : string) (n_jobs : Z) :
  respects options_frame (fit X pre smooth nn comb n_jobs).
Proof.
  intros self.
  destruct (Z.le_gt_cases (len X) (resolved_n_neighbors nn)) as [Hnn|Hnn].
  { rewrite fit_unbound_warnings by (left; exact Hnn). apply options_frame_refl. }
  destruct (Z.le_gt_cases (len X) self.(K)) as [HK|HK].
  { rewrite fit_unbound_warnings by (right; exact HK). apply options_frame_refl. }
  destruct (check_array X (resolved_n_neighbors nn + 1) 2) as [rows|e] eqn:Hcheck.
  2:{ rewrite (fit_bad_shape X pre smooth nn comb n_jobs self e) by (assumption || lia).
      repeat split; auto. }
  rewrite (fit_eq X pre smooth nn comb n_jobs self rows) by (assumption || lia).
  cbv zeta.
  set (s1 := after_prologue self pre (resolved_n_neighbors nn) comb).
  assert (H1 : options_frame self s1).
  { unfold s1, after_prologue. destruct pre; repeat split; auto. }
  set (knn := knn_used self rows pre (resolved_n_neighbors nn) n_jobs).
  destruct (neighborhood_based self).
  - pose proof (pointwise_options_frame (fst knn) s1) as H2.
    destruct (_maxLikPointwiseDimEst (fst knn) s1) as [s2 [pw|e]]; cbn [fst] in *.
    2:{ eapply options_frame_trans; eassumption. }
    assert (H3 : options_frame self (set_dimension_pw_ pw s2)).
    { eapply options_frame_trans; [exact H1|].
      eapply options_frame_trans; [exact H2|]. repeat split; auto. }
    destruct (combine comb pw) as [d|e]; [|exact H3].
    pose proof (smooth_phase_options_frame pw (snd knn) smooth
                  (set_dimension_ d (set_dimension_pw_ pw s2))) as H4.
    destruct (when smooth (smooth_phase pw (snd knn)) _) as [s3 [u|e]]; cbn [fst] in *.
    + eapply options_frame_trans; [exact H3|].
      eapply options_frame_trans; [|eapply options_frame_trans; [exact H4|]];
        repeat split; auto.
    + eapply options_frame_trans; [exact H3|].
      eapply options_frame_trans; [|exact H4]. repeat split; auto.
  - match goal with |- context [_fit ?a ?b ?c] =>
      pose proof (_fit_options_frame a b c) as H2;
      destruct (_fit a b c) as [s2 [de|e]] end; cbn [fst] in *.
    + eapply options_frame_trans; [exact H1|].
      eapply options_frame_trans; [exact H2|]. repeat split; auto.
    + eapply options_frame_trans; eassumption.
Qed.


Lemma combine_invalid (comb : string) (pw : list R) :
  ~ In comb allowed_comb ->
  combine comb pw =
  Err (ValueError "Invalid comb parameter. It has to be 'mean' or 'median'").
Proof.
  intros Hno. unfold combine.
  destruct (String.eqb_spec comb "mean") as [->|_];
    [exfalso; apply Hno; simpl; auto|].
  destruct (String.eqb_spec comb "median") as [->|_];
    [exfalso; apply Hno; simpl; auto|].
  destruct (String.eqb_spec comb "mle") as [->|_];
    [exfalso; apply Hno; simpl; auto|].
  reflexivity.
Qed.


Lemma np_mean_spec (a : list R) : np_mean a = spec_mean a.
Proof.
  unfold np_mean, spec_mean, np_sum. rewrite fold_left_Rplus. f_equal. lra.
Qed.

(** [np_sort] sorts: its result is ascending and a rearrangement of its
    argument. *)
Lemma insert_sorted_perm (x : R) (a : list R) :
  Permutation (x :: a) (insert_sorted x a).
Proof.
  induction a as [|y ys IH]; simpl.
  - apply Permutation_refl.
  - destruct (Rle_dec x y).
    + apply Permutation_refl.
    + eapply Permutation_trans; [apply perm_swap|]. now apply perm_skip.
Qed.

Lemma np_sort_perm (a : list R) : Permutation a (np_sort a).
Proof.
  induction a as [|x xs IH]; simpl.
  - apply perm_nil.
  - eapply Permutation_trans; [apply perm_skip, IH | apply insert_sorted_perm].
Qed.

Lemma insert_sorted_sorted (x : R) (a : list R) :
  Sorted Rle a -> Sorted Rle (insert_sorted x a).
Proof.
  induction a as [|y ys IH]; intros Hs; simpl.
  - repeat constructor.
  - destruct (Rle_dec x y) as [Hle|Hgt].
    + constructor; [exact Hs | constructor; exact Hle].
    + inversion Hs as [|? ? Hys Hhd]; subst.
      constructor; [apply IH; exact Hys|].
      destruct ys as [|z zs]; simpl.
      * constructor. lra.
      * destruct (Rle_dec x z); constructor; [lra|].
        inversion Hhd; subst. assumption.
Qed.

Lemma np_sort_sorted (a : list R) : Sorted Rle (np_sort a).
Proof.
  induction a as [|x xs IH]; simpl.
  - constructor.
  - apply insert_sorted_sorted. exact IH.
Qed.


(** A neighbourhood-based [fit] without noise does return: on an input
    that passes the checks, in "Haro" mode, with no empty row of distances,
    a known [comb] and no smoothing, it stores the closed-form estimate of
    every row and their combination. *)
Lemma fit_no_noise_run `{Env} (X : array_like)
    (pre : option (list (list R) * list (list Z)))
    (nn : option Z) (comb : string) (n_jobs : Z) (self : MLE)
    (rows : list (list R)) (d : R) :
  self.(neighborhood_based) = true ->
  (resolved_n_neighbors nn < len X)%Z -> (self.(K) < len X)%Z ->
  check_array X (resolved_n_neighbors nn + 1) 2 = Ok rows ->
  self.(dnoise) = DNone -> self.(integral_approximation) = "Haro"%string ->
  let dists := fst (knn_used self rows pre (resolved_n_neighbors nn) n_jobs) in
  let pw := map (spec_no_noise_estimate self.(unbiased)) dists in
  Forall (fun Rs => Rs <> []) dists ->
  combine comb pw = Ok d ->
  exists self',
    fit X pre false nn comb n_jobs self = (self', Ok tt) /\
    self'.(dimension_pw_) = Some pw /\ self'.(dimension_) = Some d /\
    self'.(is_fitted_) = true.
Proof.
  intros Hnb Hnn HK Hcheck Hd HIA dists pw Hrows Hcomb.
  rewrite (fit_eq X pre false nn comb n_jobs self rows) by (assumption || lia).
  cbv zeta. rewrite Hnb. fold dists.
  set (s1 := after_prologue self pre (resolved_n_neighbors nn) comb).
  assert (Hs1 : s1.(dnoise) = DNone /\ s1.(integral_approximation) = "Haro"%string /\
                s1.(unbiased) = self.(unbiased)).
  { unfold s1, after_prologue. destruct pre; repeat split; assumption. }
  destruct Hs1 as (Hd1 & HIA1 & Hu1).
  rewrite pointwise_no_noise by assumption.
  rewrite Hu1. fold pw. rewrite Hcomb.
  eexists. split; [reflexivity|]. repeat split.
Qed.


Lemma for_each_length {A B : Type} (f : A -> M B) (l : list A) (s s' : MLE) (ys : list B) :
  for_each f l s = (s', Ok ys) -> length ys = length l.
Proof.
  revert s s' ys. induction l as [|x xs IH]; intros s s' ys Hrun.
  - injection Hrun as _ <-. reflexivity.
  - cbn [for_each] in Hrun. unfold bind at 1 in Hrun.
    destruct (f x s) as [s1 [y|e]]; [|discriminate Hrun].
    unfold bind at 1 in Hrun.
    destruct (for_each f xs s1) as [s2 [zs|e]] eqn:Hrest; [|discriminate Hrun].
    injection Hrun as _ <-. simpl. f_equal. eapply IH. exact Hrest.
Qed.

Lemma resolve_dnoise_same_estimates (self : MLE) :
  same_estimates self (resolve_dnoise self).
Proof.
  unfold resolve_dnoise.
  destruct (dnoise_eq_str (dnoise self) "dnoiseGaussH"); simpl;
    match goal with |- context [if ?c then _ else _] => destruct c end;
    split; reflexivity.
Qed.

Lemma _fit_same_estimates `{Env} (Rs : list R) (sg : R) :
  respects same_estimates (_fit Rs sg).
Proof.
  intros self. destruct (_fit_state Rs sg self) as [->|[more ->]].
  - apply same_estimates_refl.
  - destruct (resolve_dnoise_same_estimates self) as [Hdim Hpw].
    split; simpl; assumption.
Qed.

Lemma pointwise_same_estimates `{Env} (dists : list (list R)) :
  respects same_estimates (_maxLikPointwiseDimEst dists).
Proof.
  unfold _maxLikPointwiseDimEst.
  apply (respects_for_each _ same_estimates_refl same_estimates_trans). intros Rs.
  apply (respects_bind _ same_estimates_trans);
    [apply (respects_get_self _ same_estimates_refl) | intros self].
  apply _fit_same_estimates.
Qed.

(** [check_array], reached with enough samples, rejects for another reason
    than their number. *)
Lemma check_array_past_clamp (X : array_like) (nn : Z) (e : exn) :
  (nn < len X)%Z ->
  check_array X (nn + 1) 2 = Err e ->
  exists msg, e = ValueError msg /\ msg <> "Found array with too few sample(s)"%string.
Proof.
  intros Hlen. destruct X as [a|rows]; simpl.
  - intros Hc. injection Hc as <-. eexists. split; [reflexivity | discriminate].
  - simpl in Hlen.
    replace (Z.of_nat (length rows) <? nn + 1)%Z with false
      by (symmetry; apply Z.ltb_ge; lia).
    rewrite andb_false_r.
    destruct (negb (rectangular rows)).
    { intros Hc. injection Hc as <-. eexists. split; [reflexivity | discriminate]. }
    destruct (n_features rows <? 2)%Z; intros Hc; [|discriminate Hc].
    injection Hc as <-. eexists. split; [reflexivity | discriminate].
Qed.



(** ** The claims *)

(** C1 (defect of the code).  When [integral_approximation] is one of the
    known values other than "Haro" and a noise model is configured, the
    density the integrator uses is not [r * density(r, s, sigma, k)]: [_fit]
    stores a closure that calls the attribute holding it, so every call of
    the stored density exhausts the recursion limit, and with at least two
    distances [_fit] itself ends in [RecursionError].  The rewrite is part of
    [_fit], which runs once per point. *)
Theorem fit_stored_density_recurses `{Env} (Rs : list R) (sg : R) (self : MLE) :
  In self.(integral_approximation) known_approximations ->
  self.(integral_approximation) <> "Haro"%string ->
  self.(dnoise) <> DNone ->
  (2 <= length Rs)%nat ->
  exists self',
    _fit Rs sg self = (self', Err RecursionError) /\
    self'.(dnoise) = DLambda /\
    (forall r s sigma k, self_dnoise_call self' r s sigma k = Err RecursionError).
Proof.
  intros Hknown HIA Hd Hlen.
  apply known_approximation_In in Hknown.
  pose proof (resolve_dnoise_lambda self HIA Hd) as Hlam.
  destruct (haro_approx_lambda Rs self.(sigma) (resolve_dnoise self) Hlam Hlen)
    as (Rj & Rk & Hrun).
  eexists. split; [|split].
  - rewrite _fit_eq, Hknown. simpl. rewrite Hrun. reflexivity.
  - simpl. exact Hlam.
  - intros r s sigma k. unfold self_dnoise_call. simpl. rewrite Hlam.
    apply call_dnoise_lambda.
Qed.

Lemma fit_stored_density_recurses_witness :
  exists self',
    _fit (H:=example_env) [1; 2] 1 mle_guaranteed = (self', Err RecursionError) /\
    self'.(dnoise) = DLambda /\
    (forall r s sigma k,
        self_dnoise_call (H:=example_env) self' r s sigma k = Err RecursionError).
Proof.
  apply (fit_stored_density_recurses (H:=example_env) [1; 2] 1 mle_guaranteed).
  - simpl. auto.
  - discriminate.
  - discriminate.
  - simpl. lia.
Defined.

(** C2 (defect of the code).  In non-neighbourhood-based mode [fit] does
    build the vector of the [n_neighbors] smallest distinct distances and
    does run the estimator once on it, and it passes [sqrt(2) * sigma] to
    [_fit]; but [_fit] does not read that argument: its result is the same
    for every value of it.  For
    [MLE(dnoise='dnoiseGaussH', sigma=1, neighborhood_based=False)] on the
    example arrays the one estimate is made on [[1, 2]] with noise scale 1,
    both integrals run to [2 + 100 * 1] with the density at scale 1, and
    [sqrt(2) * sigma] is not 1. *)
Theorem fit_global_noise_scale_is_sigma `{Env} :
  (forall (Rs : list R) (s1 s2 : R) (self : MLE), _fit Rs s1 self = _fit Rs s2 self) /\
  exists self',
    fit example_X (Some example_knn) false (Some 2%Z) "mle" 1 mle_global_noise
    = (self', Ok tt) /\
    self'.(trace) =
      [EvEstimate [1; 2] 1; EvQuad 1 1 0 (2 + 100 * 1); EvQuad 1 1 0 (2 + 100 * 1)] /\
    sqrt 2 * mle_global_noise.(sigma) <> 1.
Proof.
  split; [intros Rs s1 s2 self; rewrite !_fit_eq; reflexivity|].
  destruct (haro_approx_total [1; 2] 1
              (set_dnoise DGaussH
                 (after_prologue mle_global_noise (Some example_knn) 2 "mle"))
              _dnoiseGaussH (Rmax 1 2) eq_refl eq_refl) as [de Hrun].
  eexists. split; [|split].
  - rewrite (fit_eq example_X (Some example_knn) false (Some 2%Z) "mle" 1
               mle_global_noise [[0; 0]; [1; 0]; [0; 1]; [1; 1]; [2; 0]; [0; 2]]);
      [| reflexivity | reflexivity | reflexivity].
    cbv zeta. cbn [neighborhood_based mle_global_noise __init__ knn_used resolved_n_neighbors].
    rewrite example_distance_vector, _fit_eq.
    set (s1 := after_prologue mle_global_noise (Some example_knn) 2 "mle") in *.
    change (integral_approximation s1) with "Haro"%string.
    change (sigma s1) with 1.
    change (resolve_dnoise s1) with (set_dnoise DGaussH s1).
    cbn [existsb known_approximations String.eqb Ascii.eqb Bool.eqb orb negb].
    rewrite Hrun. reflexivity.
  - cbn. rewrite (Rmax_right 1 2) by lra. reflexivity.
  - simpl. rewrite Rmult_1_r. intros Hs.
    pose proof (sqrt_lt_1_alt 1 2) as Hlt. rewrite sqrt_1, Hs in Hlt. lra.
Qed.

(** C3, as the code has it.  An [integral_approximation] outside the three
    known values makes [_fit] raise [ValueError] at once, the object
    untouched.  With "iteration" [_fit] never returns an estimate, but it
    raises only after the estimator has been entered; without a noise model
    and with a non-empty distance vector the closed form is computed first
    and the [ValueError] of the unimplemented mode follows. *)
Theorem fit_rejects_unsupported_approximation `{Env} (Rs : list R) (sg : R) (self : MLE) :
  self.(integral_approximation) = "iteration"%string \/
  ~ In self.(integral_approximation) known_approximations ->
  exists self' e,
    _fit Rs sg self = (self', Err e) /\
    (~ In self.(integral_approximation) known_approximations ->
     self' = self /\ e = ValueError "Unknown integral_approximation parameter") /\
    (self.(integral_approximation) = "iteration"%string ->
     In (EvEstimate Rs self.(sigma)) self'.(trace)) /\
    (self.(integral_approximation) = "iteration"%string ->
     self.(dnoise) = DNone -> Rs <> [] ->
     self' = record (EvEstimate Rs self.(sigma)) self /\
     e = ValueError "integral_approximation='iteration' not implemented yet. See R intrinsicDimension package").
Proof.
  intros Hmode.
  destruct (existsb (String.eqb self.(integral_approximation)) known_approximations)
    eqn:Hk.
  - (* a known value: it is "iteration" *)
    assert (Hit : self.(integral_approximation) = "iteration"%string).
    { destruct Hmode as [Hit|Hno]; [exact Hit|].
      exfalso. apply Hno. apply known_approximation_In. exact Hk. }
    pose proof (haro_approx_records Rs self.(sigma) (resolve_dnoise self)) as Hrec.
    destruct (_maxLikDimEstFromR_haro_approx Rs (sigma self) (resolve_dnoise self))
      as [self1 r] eqn:Hrun.
    exists self1.
    exists (match r with
            | Ok _ => ValueError "integral_approximation='iteration' not implemented yet. See R intrinsicDimension package"
            | Err e => e
            end).
    split; [|split; [|split]].
    + rewrite _fit_eq, Hk, Hrun. simpl. rewrite Hit. destruct r; reflexivity.
    + intros Hno. exfalso. apply Hno. apply known_approximation_In. exact Hk.
    + intros _. destruct Hrec as [more Hmore]. simpl in Hmore. rewrite Hmore.
      simpl. rewrite <- app_assoc. apply in_or_app. right. left. reflexivity.
    + intros _ Hd Hne.
      rewrite (resolve_dnoise_None self Hd) in Hrun.
      rewrite (haro_approx_no_noise Rs self.(sigma) self Hd) in Hrun.
      injection Hrun as <- <-.
      destruct Rs as [|R0 Rs]; [contradiction|]. simpl. split; reflexivity.
  - exists self, (ValueError "Unknown integral_approximation parameter").
    assert (Hno : ~ In self.(integral_approximation) known_approximations).
    { intros Hin. apply known_approximation_In in Hin. congruence. }
    split; [|split; [|split]].
    + rewrite _fit_eq, Hk. reflexivity.
    + intros _. split; reflexivity.
    + intros Hit. exfalso. apply Hno. rewrite Hit. simpl. auto.
    + intros Hit. exfalso. apply Hno. rewrite Hit. simpl. auto.
Qed.

Lemma fit_rejects_unsupported_approximation_witness :
  exists self' e,
    _fit (H:=example_env) [1; 2] 0 mle_bogus = (self', Err e) /\
    (~ In mle_bogus.(integral_approximation) known_approximations ->
     self' = mle_bogus /\ e = ValueError "Unknown integral_approximation parameter") /\
    (mle_bogus.(integral_approximation) = "iteration"%string ->
     In (EvEstimate [1; 2] mle_bogus.(sigma)) self'.(trace)) /\
    (mle_bogus.(integral_approximation) = "iteration"%string ->
     mle_bogus.(dnoise) = DNone -> [1; 2] <> [] ->
     self' = record (EvEstimate [1; 2] mle_bogus.(sigma)) mle_bogus /\
     e = ValueError "integral_approximation='iteration' not implemented yet. See R intrinsicDimension package").
Proof.
  apply (fit_rejects_unsupported_approximation (H:=example_env) [1; 2] 0 mle_bogus).
  right. simpl. intros [Hc|[Hc|[Hc|[]]]]; discriminate Hc.
Defined.

(** C3 as stated fails for "iteration": on [Rs = [1, 2]] without noise the
    estimator is entered before the error is raised. *)
Lemma iteration_estimates_before_raising :
  ~ (exists self' msg,
        _fit (H:=example_env) [1; 2] 0 mle_iteration = (self', Err (ValueError msg)) /\
        no_numerical_work mle_iteration self').
Proof.
  intros (self' & msg & Hrun & Hno).
  assert (Hval : fst (_fit (H:=example_env) [1; 2] 0 mle_iteration) =
                 record (EvEstimate [1; 2] 0) mle_iteration) by reflexivity.
  rewrite Hrun in Hval. simpl in Hval. subst self'.
  unfold no_numerical_work in Hno. simpl in Hno. discriminate Hno.
Qed.

(** C4, as the code has it.  Without a noise model the estimate of a
    non-empty distance vector is [kfac / sum_i ln (Rk / Rs[i])], the sum
    over all [k] entries, with [Rk = max Rs] and [kfac = k - 2] when
    unbiased, else [k - 1].  For [Rs = [1, 2, 3, 4, 5]] and
    [unbiased = False] it is
    [4 / (ln (5/1) + ln (5/2) + ln (5/3) + ln (5/4) + ln (5/5))], a value
    between 1.225 and 1.23. *)
Theorem no_noise_estimate_closed_form `{Env} (Rs : list R) (sg : R) (self : MLE) :
  self.(dnoise) = DNone -> Rs <> [] ->
  snd (_maxLikDimEstFromR_haro_approx Rs sg self) =
    Ok (spec_no_noise_estimate self.(unbiased) Rs) /\
  (Rs = [1; 2; 3; 4; 5] -> self.(unbiased) = false ->
   snd (_maxLikDimEstFromR_haro_approx Rs sg self) =
     Ok (4 / (ln (5 / 1) + ln (5 / 2) + ln (5 / 3) + ln (5 / 4) + ln (5 / 5))) /\
   1.225 < 4 / (ln (5 / 1) + ln (5 / 2) + ln (5 / 3) + ln (5 / 4) + ln (5 / 5)) < 1.23).
Proof.
  intros Hd Hne. split.
  - rewrite haro_approx_no_noise by exact Hd.
    rewrite np_max_spec by exact Hne. simpl.
    unfold spec_no_noise_estimate, spec_kfac, spec_log_ratio_sum.
    rewrite np_sum_map. reflexivity.
  - intros -> Hu. split; [apply golden_run; assumption | apply golden_value_bounds].
Qed.

Lemma no_noise_estimate_closed_form_witness :
  snd (_maxLikDimEstFromR_haro_approx (H:=example_env) [1; 2; 3; 4; 5] 0 mle_default) =
    Ok (spec_no_noise_estimate false [1; 2; 3; 4; 5]) /\
  ([1; 2; 3; 4; 5] = [1; 2; 3; 4; 5] -> false = false ->
   snd (_maxLikDimEstFromR_haro_approx (H:=example_env) [1; 2; 3; 4; 5] 0 mle_default) =
     Ok (4 / (ln (5 / 1) + ln (5 / 2) + ln (5 / 3) + ln (5 / 4) + ln (5 / 5))) /\
   1.225 < 4 / (ln (5 / 1) + ln (5 / 2) + ln (5 / 3) + ln (5 / 4) + ln (5 / 5)) < 1.23).
Proof.
  apply (no_noise_estimate_closed_form (H:=example_env) [1; 2; 3; 4; 5] 0 mle_default).
  - reflexivity.
  - discriminate.
Defined.

(** C4 as stated fails in its number: on [Rs = [1, 2, 3, 4, 5]] without
    noise and with [unbiased = False] the estimate is not within 1 of
    2.27. *)
Lemma golden_value_is_not_2_27 :
  ~ (exists v,
        snd (_maxLikDimEstFromR_haro_approx (H:=example_env) [1; 2; 3; 4; 5] 0 mle_default)
        = Ok v /\
        Rabs (v - 2.27) < 1).
Proof.
  intros (v & Hrun & Hnear).
  rewrite (golden_run (H:=example_env) 0 mle_default eq_refl eq_refl) in Hrun.
  injection Hrun as Hv.
  pose proof golden_value_bounds as [_ Hhi]. rewrite Hv in Hhi.
  apply Rabs_def2 in Hnear. lra.
Qed.

(** C5 (defect of the code).  When [n_neighbors] (20 when not given) or [K]
    is at least [len(X)], [fit] does not clamp and go on: the warning it
    means to emit evaluates the unbound name [warnings], and the call ends
    in [NameError] with the object as it was. *)
Theorem fit_clamp_raises_NameError `{Env} (X : array_like)
    (pre : option (list (list R) * list (list Z))) (smooth : bool)
    (nn : option Z) (comb : string) (n_jobs : Z) (self : MLE) :
  (len X <= resolved_n_neighbors nn \/ len X <= self.(K))%Z ->
  fit X pre smooth nn comb n_jobs self =
  (self, Err (NameError "name 'warnings' is not defined")).
Proof. apply fit_unbound_warnings. Qed.

Lemma fit_clamp_raises_NameError_witness :
  fit (H:=example_env) example_X None false None "mle" 1 mle_default =
  (mle_default, Err (NameError "name 'warnings' is not defined")).
Proof.
  apply (fit_clamp_raises_NameError (H:=example_env) example_X None false None "mle" 1
           mle_default).
  left. unfold resolved_n_neighbors, _N_NEIGHBORS. simpl. lia.
Defined.

(** C6, as the code has it.  In neighbourhood-based mode a [comb] outside
    "mle", "mean", "median" never lets [fit] return; the check of [comb]
    comes after the pointwise estimation.  When the input passes the checks
    and every row of distances is estimated, whatever the noise model and
    the approximation, [fit] raises the [ValueError] of the invalid [comb]
    with one estimate for every row computed and stored in [dimension_pw_],
    and no global estimate written.  Without a noise model, in "Haro" mode
    and with no empty row, every row is estimated, and the stored estimates
    are those of the closed form. *)
Theorem fit_invalid_comb_raises_after_estimation `{Env} (X : array_like)
    (pre : option (list (list R) * list (list Z))) (smooth : bool)
    (nn : option Z) (comb : string) (n_jobs : Z) (self : MLE) :
  self.(neighborhood_based) = true -> ~ In comb allowed_comb ->
  (exists self' e, fit X pre smooth nn comb n_jobs self = (self', Err e)) /\
  (forall rows s2 pw,
      (resolved_n_neighbors nn < len X)%Z -> (self.(K) < len X)%Z ->
      check_array X (resolved_n_neighbors nn + 1) 2 = Ok rows ->
      let dists := fst (knn_used self rows pre (resolved_n_neighbors nn) n_jobs) in
      _maxLikPointwiseDimEst dists (after_prologue self pre (resolved_n_neighbors nn) comb)
        = (s2, Ok pw) ->
      fit X pre smooth nn comb n_jobs self =
        (set_dimension_pw_ pw s2,
         Err (ValueError "Invalid comb parameter. It has to be 'mean' or 'median'")) /\
      (set_dimension_pw_ pw s2).(dimension_pw_) = Some pw /\
      length pw = length dists /\
      (set_dimension_pw_ pw s2).(dimension_) = self.(dimension_)) /\
  (forall rows,
      (resolved_n_neighbors nn < len X)%Z -> (self.(K) < len X)%Z ->
      check_array X (resolved_n_neighbors nn + 1) 2 = Ok rows ->
      self.(dnoise) = DNone -> self.(integral_approximation) = "Haro"%string ->
      let dists := fst (knn_used self rows pre (resolved_n_neighbors nn) n_jobs) in
      Forall (fun Rs => Rs <> []) dists ->
      exists self',
        fit X pre smooth nn comb n_jobs self =
        (self', Err (ValueError "Invalid comb parameter. It has to be 'mean' or 'median'")) /\
        self'.(dimension_pw_) = Some (map (spec_no_noise_estimate self.(unbiased)) dists) /\
        self'.(trace) =
          (after_prologue self pre (resolved_n_neighbors nn) comb).(trace)
          ++ map (fun Rs => EvEstimate Rs self.(sigma)) dists /\
        self'.(dimension_) = self.(dimension_)).
Proof.
  intros Hnb Hcomb. split; [|split].
  - destruct (Z.le_gt_cases (len X) (resolved_n_neighbors nn)) as [Hnn|Hnn].
    { do 2 eexists. apply fit_unbound_warnings. left. exact Hnn. }
    destruct (Z.le_gt_cases (len X) self.(K)) as [HK|HK].
    { do 2 eexists. apply fit_unbound_warnings. right. exact HK. }
    destruct (check_array X (resolved_n_neighbors nn + 1) 2) as [rows|e] eqn:Hcheck.
    2:{ do 2 eexists. apply fit_bad_shape; [lia | lia | exact Hcheck]. }
    rewrite (fit_eq X pre smooth nn comb n_jobs self rows) by (assumption || lia).
    cbv zeta. rewrite Hnb.
    destruct (_maxLikPointwiseDimEst _ _) as [s2 [pw|e]].
    + rewrite combine_invalid by exact Hcomb. do 2 eexists. reflexivity.
    + do 2 eexists. reflexivity.
  - intros rows s2 pw Hnn HK Hcheck dists Hrun.
    rewrite (fit_eq X pre smooth nn comb n_jobs self rows) by (assumption || lia).
    cbv zeta. rewrite Hnb. fold dists. rewrite Hrun.
    rewrite combine_invalid by exact Hcomb.
    split; [reflexivity|]. split; [reflexivity|]. split.
    + unfold _maxLikPointwiseDimEst in Hrun. eapply for_each_length. exact Hrun.
    + pose proof (pointwise_same_estimates dists
                    (after_prologue self pre (resolved_n_neighbors nn) comb)) as Hsame.
      rewrite Hrun in Hsame. destruct Hsame as [Hdim _]. cbn [fst] in Hdim.
      cbn [dimension_ set_dimension_pw_]. rewrite Hdim.
      unfold after_prologue. destruct pre; reflexivity.
  - intros rows Hnn HK Hcheck Hd HIA dists Hrows.
    rewrite (fit_eq X pre smooth nn comb n_jobs self rows) by (assumption || lia).
    cbv zeta. rewrite Hnb. fold dists.
    set (s1 := after_prologue self pre (resolved_n_neighbors nn) comb).
    assert (Hs1 : s1.(dnoise) = DNone /\ s1.(integral_approximation) = "Haro"%string /\
                  s1.(sigma) = self.(sigma) /\ s1.(unbiased) = self.(unbiased) /\
                  s1.(dimension_) = self.(dimension_)).
    { unfold s1, after_prologue. destruct pre; repeat split; assumption. }
    destruct Hs1 as (Hd1 & HIA1 & Hsg1 & Hu1 & Hdim1).
    rewrite pointwise_no_noise by assumption.
    rewrite combine_invalid by exact Hcomb.
    eexists. split; [reflexivity|].
    cbn [dimension_pw_ set_dimension_pw_ set_trace trace dimension_].
    rewrite Hsg1, Hu1, Hdim1. repeat split.
Qed.

Lemma fit_invalid_comb_raises_after_estimation_witness :
  (exists s2 pw,
     fit (H:=example_env) example_X (Some example_knn) false (Some 2%Z) "bogus" 1
         mle_default =
     (set_dimension_pw_ pw s2,
      Err (ValueError "Invalid comb parameter. It has to be 'mean' or 'median'")) /\
     (set_dimension_pw_ pw s2).(dimension_pw_) = Some pw /\
     length pw = 3%nat /\
     (set_dimension_pw_ pw s2).(dimension_) = None) /\
  (exists self',
    fit (H:=example_env) example_X (Some example_knn) false (Some 2%Z) "bogus" 1
        mle_default =
    (self', Err (ValueError "Invalid comb parameter. It has to be 'mean' or 'median'")) /\
    self'.(dimension_pw_) =
      Some (map (spec_no_noise_estimate false) [[1; 2]; [1; 3]; [2; 4]]) /\
    self'.(trace) = [EvEstimate [1; 2] 0; EvEstimate [1; 3] 0; EvEstimate [2; 4] 0] /\
    self'.(dimension_) = None).
Proof.
  pose proof (fit_invalid_comb_raises_after_estimation (H:=example_env) example_X
                (Some example_knn) false (Some 2%Z) "bogus" 1 mle_default eq_refl
                ltac:(simpl; intros [Hc|[Hc|[Hc|[]]]]; discriminate Hc))
    as (_ & Hany & Hnone).
  split.
  - do 2 eexists.
    apply (Hany [[0; 0]; [1; 0]; [0; 1]; [1; 1]; [2; 0]; [0; 2]]).
    + reflexivity.
    + reflexivity.
    + reflexivity.
    + apply pointwise_no_noise.
      * reflexivity.
      * reflexivity.
      * simpl. repeat constructor; discriminate.
  - apply (Hnone [[0; 0]; [1; 0]; [0; 1]; [1; 1]; [2; 0]; [0; 2]]).
    + reflexivity.
    + reflexivity.
    + reflexivity.
    + reflexivity.
    + reflexivity.
    + simpl. repeat constructor; discriminate.
Defined.

(** C6 as stated fails in its order: with [comb = "bogus"] on the example
    arrays the error comes after numerical work. *)
Lemma invalid_comb_estimates_before_raising :
  ~ (exists self' msg,
        fit (H:=example_env) example_X (Some example_knn) false (Some 2%Z) "bogus" 1
            mle_default = (self', Err (ValueError msg)) /\
        no_numerical_work mle_default self').
Proof.
  intros (self' & msg & Hrun & Hno).
  assert (Htrace :
    trace (fst (fit (H:=example_env) example_X (Some example_knn) false (Some 2%Z)
                    "bogus" 1 mle_default)) =
    [EvEstimate [1; 2] 0; EvEstimate [1; 3] 0; EvEstimate [2; 4] 0]) by reflexivity.
  rewrite Hrun in Htrace. cbn [fst] in Htrace.
  unfold no_numerical_work in Hno. rewrite Hno in Htrace. discriminate Htrace.
Qed.

(** C7, as the code has it.  A call of [fit], however it ends, leaves
    [sigma], [n], [integral_approximation], [unbiased] and
    [neighborhood_based] as they were, and [K] when it is below [len(X)].
    [dnoise] stays [None] when it was [None]; otherwise it is as it was or as
    [_fit] resolves it (the name 'dnoiseGaussH' replaced by the density, and
    the closure in its place when the approximation is not "Haro"). *)
Theorem fit_options_after_call `{Env} (X : array_like)
    (pre : option (list (list R) * list (list Z))) (smooth : bool)
    (nn : option Z) (comb : string) (n_jobs : Z) (self self' : MLE) (r : res unit) :
  fit X pre smooth nn comb n_jobs self = (self', r) ->
  same_fixed_options self self' /\
  ((self.(K) < len X)%Z -> self'.(K) = self.(K)) /\
  (self.(dnoise) = DNone -> self'.(dnoise) = DNone) /\
  (self'.(dnoise) = self.(dnoise) \/
   self'.(dnoise) = resolved_density self.(integral_approximation) self.(dnoise)).
Proof.
  intros Hrun.
  pose proof (fit_respects_options X pre smooth nn comb n_jobs self) as Hframe.
  rewrite Hrun in Hframe. cbn [fst] in Hframe.
  destruct Hframe as (Hfixed & HK & Hd).
  split; [exact Hfixed|]. split; [intros _; exact HK|]. split; [|exact Hd].
  intros Hnone. destruct Hd as [Hd|Hd]; rewrite Hd, Hnone; [reflexivity|].
  unfold resolved_density. simpl. rewrite andb_false_r. reflexivity.
Qed.

Lemma fit_options_after_call_witness :
  same_fixed_options mle_noise
    (fst (fit (H:=example_env) example_X (Some example_knn) false (Some 2%Z) "mle" 1
              mle_noise)) /\
  ((mle_noise.(K) < len example_X)%Z ->
   (fst (fit (H:=example_env) example_X (Some example_knn) false (Some 2%Z) "mle" 1
             mle_noise)).(K) = mle_noise.(K)) /\
  (mle_noise.(dnoise) = DNone ->
   (fst (fit (H:=example_env) example_X (Some example_knn) false (Some 2%Z) "mle" 1
             mle_noise)).(dnoise) = DNone) /\
  ((fst (fit (H:=example_env) example_X (Some example_knn) false (Some 2%Z) "mle" 1
             mle_noise)).(dnoise) = mle_noise.(dnoise) \/
   (fst (fit (H:=example_env) example_X (Some example_knn) false (Some 2%Z) "mle" 1
             mle_noise)).(dnoise) =
   resolved_density mle_noise.(integral_approximation) mle_noise.(dnoise)).
Proof.
  apply (fit_options_after_call (H:=example_env) example_X (Some example_knn) false
           (Some 2%Z) "mle" 1 mle_noise _
           (snd (fit (H:=example_env) example_X (Some example_knn) false (Some 2%Z)
                     "mle" 1 mle_noise))).
  apply surjective_pairing.
Defined.

(** C7 as stated fails for [dnoise]: after one call of [fit] on
    [MLE(dnoise='dnoiseGaussH', sigma=1)] the attribute holds the density
    function, not the name it was configured with. *)
Lemma fit_rewrites_dnoise :
  (fst (fit (H:=example_env) example_X (Some example_knn) false (Some 2%Z) "mle" 1
            mle_noise)).(dnoise) <> mle_noise.(dnoise).
Proof.
  assert (Hd :
    (fst (fit (H:=example_env) example_X (Some example_knn) false (Some 2%Z) "mle" 1
              mle_noise)).(dnoise) = DGaussH) by reflexivity.
  rewrite Hd. discriminate.
Qed.

(** C8.  When a neighbourhood-based [fit] returns, the pointwise estimates
    are stored and the global estimate is their combination: with "mle" the
    reciprocal of the arithmetic mean of their reciprocals, with "mean" their
    arithmetic mean, with "median" their median. *)
Theorem fit_combination `{Env} (X : array_like)
    (pre : option (list (list R) * list (list Z))) (smooth : bool)
    (nn : option Z) (comb : string) (n_jobs : Z) (self self' : MLE) :
  self.(neighborhood_based) = true ->
  fit X pre smooth nn comb n_jobs self = (self', Ok tt) ->
  exists pw,
    self'.(dimension_pw_) = Some pw /\
    (comb = "mle"%string -> self'.(dimension_) = Some (spec_harmonic pw)) /\
    (comb = "mean"%string -> self'.(dimension_) = Some (spec_mean pw)) /\
    (comb = "median"%string -> self'.(dimension_) = Some (np_median pw)).
Proof.
  intros Hnb Hrun.
  destruct (Z.le_gt_cases (len X) (resolved_n_neighbors nn)) as [Hnn|Hnn].
  { rewrite fit_unbound_warnings in Hrun by (left; exact Hnn). discriminate Hrun. }
  destruct (Z.le_gt_cases (len X) self.(K)) as [HK|HK].
  { rewrite fit_unbound_warnings in Hrun by (right; exact HK). discriminate Hrun. }
  destruct (check_array X (resolved_n_neighbors nn + 1) 2) as [rows|e] eqn:Hcheck.
  2:{ rewrite (fit_bad_shape X pre smooth nn comb n_jobs self e) in Hrun
        by (assumption || lia).
      discriminate Hrun. }
  rewrite (fit_eq X pre smooth nn comb n_jobs self rows) in Hrun by (assumption || lia).
  cbv zeta in Hrun. rewrite Hnb in Hrun.
  destruct (_maxLikPointwiseDimEst _ _) as [s2 [pw|e]]; [|discriminate Hrun].
  destruct (combine comb pw) as [d|e] eqn:Hcomb; [|discriminate Hrun].
  match type of Hrun with context [when smooth ?m ?s] =>
    pose proof (smooth_phase_same_estimates pw
                  (snd (knn_used self rows pre (resolved_n_neighbors nn) n_jobs))
                  smooth s) as [Hdim Hpw];
    destruct (when smooth m s) as [s3 [u|e]]; [|discriminate Hrun]
  end.
  injection Hrun as <-. cbn [fst] in Hdim, Hpw.
  exists pw. cbn [dimension_pw_ dimension_ set_is_fitted_ set_is_fitted_pw_].
  rewrite Hdim, Hpw. cbn [dimension_pw_ dimension_ set_dimension_ set_dimension_pw_].
  split; [reflexivity|].
  unfold combine in Hcomb.
  repeat split; intros ->; simpl in Hcomb; injection Hcomb as <-.
  - unfold spec_harmonic. now rewrite np_mean_spec.
  - now rewrite np_mean_spec.
  - reflexivity.
Qed.

Lemma fit_combination_witness :
  exists pw,
    (fst (fit (H:=example_env) example_X (Some example_knn) true (Some 2%Z) "mle" 1
              mle_default)).(dimension_pw_) = Some pw /\
    ("mle"%string = "mle"%string ->
     (fst (fit (H:=example_env) example_X (Some example_knn) true (Some 2%Z) "mle" 1
               mle_default)).(dimension_) = Some (spec_harmonic pw)) /\
    ("mle"%string = "mean"%string ->
     (fst (fit (H:=example_env) example_X (Some example_knn) true (Some 2%Z) "mle" 1
               mle_default)).(dimension_) = Some (spec_mean pw)) /\
    ("mle"%string = "median"%string ->
     (fst (fit (H:=example_env) example_X (Some example_knn) true (Some 2%Z) "mle" 1
               mle_default)).(dimension_) = Some (np_median pw)).
Proof.
  apply (fit_combination (H:=example_env) example_X (Some example_knn) true (Some 2%Z)
           "mle" 1 mle_default).
  - reflexivity.
  - transitivity
      (fst (fit (H:=example_env) example_X (Some example_knn) true (Some 2%Z) "mle" 1
                mle_default),
       snd (fit (H:=example_env) example_X (Some example_knn) true (Some 2%Z) "mle" 1
                mle_default)).
    + apply surjective_pairing.
    + f_equal.
Defined.




(** C10, as the code has it.  Once [n_neighbors] (20 when not given) and
    [K] are below [len(X)], [fit] validates the shape of [X] with
    [check_array], whether or not [precomputed_knn_arrays] is given.  A
    two-dimensional [X] has its [n_neighbors + 1] samples by then, so the
    number of samples is not what [check_array] rejects; an [X] that is not
    two-dimensional, or has fewer than two features, makes [fit] raise the
    [ValueError] of [check_array] before any estimation: only [n_neighbors]
    and [comb] are written, no numerical step is recorded and no estimate is
    written. *)
Theorem fit_validates_shape `{Env} (X : array_like)
    (pre : option (list (list R) * list (list Z))) (smooth : bool)
    (nn : option Z) (comb : string) (n_jobs : Z) (self : MLE) :
  (resolved_n_neighbors nn < len X)%Z -> (self.(K) < len X)%Z ->
  (forall rows, X = Arr2 rows ->
                (resolved_n_neighbors nn + 1 <= Z.of_nat (length rows))%Z) /\
  (~ valid_shape X (resolved_n_neighbors nn) ->
   exists msg,
     fit X pre smooth nn comb n_jobs self =
       (set_comb comb (set_n_neighbors (resolved_n_neighbors nn) self),
        Err (ValueError msg)) /\
     msg <> "Found array with too few sample(s)"%string /\
     no_numerical_work self
       (set_comb comb (set_n_neighbors (resolved_n_neighbors nn) self)) /\
     (set_comb comb (set_n_neighbors (resolved_n_neighbors nn) self)).(dimension_)
       = self.(dimension_) /\
     (set_comb comb (set_n_neighbors (resolved_n_neighbors nn) self)).(dimension_pw_)
       = self.(dimension_pw_) /\
     (set_comb comb (set_n_neighbors (resolved_n_neighbors nn) self)).(is_fitted_)
       = self.(is_fitted_)).
Proof.
  intros Hnn HK. split.
  - intros rows ->. simpl in Hnn. lia.
  - intros Hshape.
    assert (Hcheck : exists e, check_array X (resolved_n_neighbors nn + 1) 2 = Err e).
    { destruct X as [a|rows]; simpl.
      - eexists; reflexivity.
      - destruct (rectangular rows); simpl; [|eexists; reflexivity].
        simpl in Hnn, Hshape.
        destruct (_ && _)%bool; [eexists; reflexivity|].
        destruct (Z.ltb_spec (n_features rows) 2) as [Hf|Hf]; simpl.
        + eexists; reflexivity.
        + exfalso. apply Hshape. split; lia. }
    destruct Hcheck as [e Hcheck].
    destruct (check_array_past_clamp X (resolved_n_neighbors nn) e Hnn Hcheck)
      as (msg & -> & Hmsg).
    exists msg. split; [apply fit_bad_shape; assumption|].
    split; [exact Hmsg|]. repeat split.
Qed.

Lemma fit_validates_shape_witness :
  (forall rows, Arr2 [[0]; [1]; [2]] = Arr2 rows ->
                (resolved_n_neighbors (Some 2%Z) + 1 <= Z.of_nat (length rows))%Z) /\
  exists msg,
    fit (H:=example_env) (Arr2 [[0]; [1]; [2]]) (Some example_knn) false (Some 2%Z)
        "mle" 1 (__init__ DNone 0 None "Haro" false true 2) =
      (set_comb "mle" (set_n_neighbors (resolved_n_neighbors (Some 2%Z))
                         (__init__ DNone 0 None "Haro" false true 2)),
       Err (ValueError msg)) /\
    msg <> "Found array with too few sample(s)"%string.
Proof.
  destruct (fit_validates_shape (H:=example_env) (Arr2 [[0]; [1]; [2]])
              (Some example_knn) false (Some 2%Z) "mle" 1
              (__init__ DNone 0 None "Haro" false true 2) eq_refl eq_refl)
    as [Hsamples Hshape].
  split; [exact Hsamples|].
  destruct Hshape as (msg & Hrun & Hmsg & _).
  - simpl. unfold n_features. simpl. lia.
  - exists msg. split; assumption.
Defined.

(** C10 as stated fails for the number of samples: on the six example
    points with [n_neighbors] not given (20), [fit] ends at the clamp, in
    the [NameError] of the unbound [warnings], and in no [ValueError] of a
    shape validation. *)
Lemma few_samples_stop_at_the_clamp :
  ~ valid_shape example_X (resolved_n_neighbors None) /\
  fit (H:=example_env) example_X (Some example_knn) false None "mle" 1 mle_default =
    (mle_default, Err (NameError "name 'warnings' is not defined")) /\
  ~ (exists self' msg,
        fit (H:=example_env) example_X (Some example_knn) false None "mle" 1 mle_default =
        (self', Err (ValueError msg))).
Proof.
  assert (Hrun :
    fit (H:=example_env) example_X (Some example_knn) false None "mle" 1 mle_default =
    (mle_default, Err (NameError "name 'warnings' is not defined"))).
  { apply fit_unbound_warnings. left. vm_compute. discriminate. }
  split; [|split].
  - unfold valid_shape, example_X, resolved_n_neighbors, _N_NEIGHBORS. simpl. lia.
  - exact Hrun.
  - intros (self' & msg & Hval). rewrite Hrun in Hval. discriminate Hval.
Qed.

(** ** Further properties of the code *)

(** *** The Gaussian transition density *)

Lemma exp_nonpos_le_1 (x : R) : x <= 0 -> exp x <= 1.
Proof.
  intros [Hlt|Heq].
  - rewrite <- exp_0. left. apply exp_increasing. exact Hlt.
  - rewrite Heq, exp_0. lra.
Qed.

(** X1.  For a positive noise scale [_dnoiseGaussH] is never negative, the
    same whichever of its two radii comes first, never above its value at
    [r = s], which is [1 / (sigma * sqrt(2 pi))]; the argument [k] plays no
    part. *)
Theorem dnoiseGaussH_shape (r s sigma : R) (k k' : option Z) :
  0 < sigma ->
  0 <= _dnoiseGaussH r s sigma k <= _dnoiseGaussH s s sigma k' /\
  _dnoiseGaussH s s sigma k' = 1 / (sigma * sqrt (2 * PI)) /\
  _dnoiseGaussH r s sigma k = _dnoiseGaussH s r sigma k'.
Proof.
  intros Hsigma. unfold _dnoiseGaussH.
  assert (Hroot : 0 < sqrt (2 * PI)).
  { apply sqrt_lt_R0. pose proof PI_RGT_0. lra. }
  assert (Hden : 0 < sigma * sqrt (2 * PI)) by (apply Rmult_lt_0_compat; assumption).
  assert (Hinv : 0 < / (sigma * sqrt (2 * PI))) by (apply Rinv_0_lt_compat; exact Hden).
  assert (Hpeak : exp (- 0.5 * ((s - s) / sigma) ^ 2) = 1).
  { replace (- 0.5 * ((s - s) / sigma) ^ 2) with 0; [apply exp_0|].
    unfold Rdiv. ring. }
  split; [split|split].
  - unfold Rdiv. apply Rmult_le_pos; [left; apply exp_pos | lra].
  - rewrite Hpeak. apply Rmult_le_compat_r; [lra|].
    apply exp_nonpos_le_1.
    pose proof (pow2_ge_0 ((s - r) / sigma)). lra.
  - rewrite Hpeak. reflexivity.
  - do 2 f_equal. unfold Rdiv. ring.
Qed.

Lemma dnoiseGaussH_shape_witness :
  0 <= _dnoiseGaussH 1 2 3 None <= _dnoiseGaussH 2 2 3 (Some 5%Z) /\
  _dnoiseGaussH 2 2 3 (Some 5%Z) = 1 / (3 * sqrt (2 * PI)) /\
  _dnoiseGaussH 1 2 3 None = _dnoiseGaussH 2 1 3 (Some 5%Z).
Proof.
  apply (dnoiseGaussH_shape 1 2 3 None (Some 5%Z)). lra.
Defined.

(** *** The estimator, as a value *)

Lemma integral_ratio_value `{Env} (c : MLE) (Rk sg Rpr Rj : R) (s : MLE) :
  snd (integral_ratio c Rk sg Rpr Rj s) = ratio_result c Rk sg Rpr Rj.
Proof.
  unfold integral_ratio, ratio_result, bind, emit, modify, lift, ret.
  destruct (scipy_quad (numInt c Rk sg Rj) 0 Rpr); cbn [res_bind snd]; [|reflexivity].
  destruct (scipy_quad (denomInt c sg Rj) 0 Rpr); reflexivity.
Qed.

Lemma for_each_value {A B : Type} (f : A -> M B) (g : A -> res B) (l : list A) :
  (forall x s, snd (f x s) = g x) ->
  forall s, snd (for_each f l s) = res_map g l.
Proof.
  intros Hf. induction l as [|x xs IH]; intros s; [reflexivity|].
  cbn [for_each res_map]. unfold bind at 1.
  specialize (Hf x s). destruct (f x s) as [s1 [y|e]]; cbn [snd] in Hf; rewrite <- Hf;
    [|reflexivity].
  cbn [res_bind]. unfold bind at 1.
  specialize (IH s1). destruct (for_each f xs s1) as [s2 [ys|e]]; cbn [snd] in IH;
    rewrite <- IH; reflexivity.
Qed.

(** What the estimator returns: the exception of [np.max], the closed form
    without noise, or [kfac] over the sum of the quotients of the
    integrals. *)
Lemma haro_approx_value `{Env} (Rs : list R) (sg : R) (self : MLE) :
  snd (_maxLikDimEstFromR_haro_approx Rs sg self) =
  res_bind (np_max Rs) (fun Rk =>
    let k := Z.of_nat (length Rs) in
    let kfac := if self.(unbiased) then (k - 2)%Z else (k - 1)%Z in
    if is_None self.(dnoise)
    then Ok (IZR kfac / np_sum (map (fun Ri => ln (Rk / Ri)) Rs))
    else
      res_bind
        (res_map (ratio_result (record (EvEstimate Rs sg) self) Rk sg (Rk + 100 * sg))
                 (slice_to (k - 1) Rs))
        (fun terms => Ok (IZR kfac / np_sum terms))).
Proof.
  unfold _maxLikDimEstFromR_haro_approx, bind, emit, modify, get_self, lift.
  fold (record (EvEstimate Rs sg) self).
  destruct (np_max Rs) as [Rk|e]; cbn [res_bind]; [|reflexivity].
  change (dnoise (record (EvEstimate Rs sg) self)) with (dnoise self).
  change (unbiased (record (EvEstimate Rs sg) self)) with (unbiased self).
  destruct (is_None (dnoise self)); [reflexivity|].
  cbv zeta.
  rewrite <- (for_each_value
                (integral_ratio (record (EvEstimate Rs sg) self) Rk sg (Rk + 100 * sg))
                (ratio_result (record (EvEstimate Rs sg) self) Rk sg (Rk + 100 * sg))
                (slice_to (Z.of_nat (length Rs) - 1) Rs)
                (integral_ratio_value _ Rk sg (Rk + 100 * sg))
                (record (EvEstimate Rs sg) self)).
  destruct (for_each _ _ _) as [s2 [terms|e]]; reflexivity.
Qed.

(** X2.  The unbiased and the biased estimate of the same distances differ
    in the numerator [kfac] alone: either both calls raise the same
    exception, or the two estimates are [k - 1] and [k - 2] over one and the
    same denominator, with or without a noise model. *)
Theorem unbiased_estimate_ratio `{Env} (Rs : list R) (sg : R) (self : MLE) :
  match snd (_maxLikDimEstFromR_haro_approx Rs sg (set_unbiased false self)),
        snd (_maxLikDimEstFromR_haro_approx Rs sg (set_unbiased true self)) with
  | Ok biased, Ok unbiased =>
      exists S : R,
        biased = IZR (Z.of_nat (length Rs) - 1) / S /\
        unbiased = IZR (Z.of_nat (length Rs) - 2) / S
  | Err e, Err e' => e = e'
  | _, _ => False
  end.
Proof.
  rewrite !haro_approx_value.
  destruct (np_max Rs) as [Rk|e]; cbn [res_bind]; [|reflexivity].
  cbv zeta. cbn [unbiased dnoise set_unbiased].
  destruct (is_None (dnoise self)).
  - eexists. split; reflexivity.
  - change (ratio_result (record (EvEstimate Rs sg) (set_unbiased true self)))
      with (ratio_result (record (EvEstimate Rs sg) (set_unbiased false self))).
    destruct (res_map _ _) as [terms|e]; cbn [res_bind]; [|reflexivity].
    eexists. split; reflexivity.
Qed.

(** *** Edge cases of the estimate without noise *)

(** X3.  With a known [integral_approximation], [_fit] on an empty distance
    vector raises the [ValueError] of [np.max], whatever the noise model;
    by then [dnoise] has been resolved and the entry of the estimator
    recorded. *)
Theorem fit_empty_distances `{Env} (sg : R) (self : MLE) :
  In self.(integral_approximation) known_approximations ->
  _fit [] sg self =
  (record (EvEstimate [] self.(sigma)) (resolve_dnoise self),
   Err (ValueError "zero-size array to reduction operation maximum which has no identity")).
Proof.
  intros Hknown. apply known_approximation_In in Hknown.
  rewrite _fit_eq, Hknown. reflexivity.
Qed.

Lemma fit_empty_distances_witness :
  _fit (H:=example_env) [] 7 mle_guaranteed =
  (record (EvEstimate [] 1) (resolve_dnoise mle_guaranteed),
   Err (ValueError "zero-size array to reduction operation maximum which has no identity")).
Proof.
  apply (fit_empty_distances (H:=example_env) 7 mle_guaranteed).
  simpl. auto.
Defined.

Lemma fold_right_Rmax_ge (x : R) (xs : list R) :
  x <= fold_right Rmax x xs /\ forall y, In y xs -> y <= fold_right Rmax x xs.
Proof.
  induction xs as [|z zs [IHx IHin]]; simpl.
  - split; [lra | intros y []].
  - split.
    + eapply Rle_trans; [exact IHx | apply Rmax_r].
    + intros y [<-|Hy]; [apply Rmax_l|].
      eapply Rle_trans; [apply IHin; exact Hy | apply Rmax_r].
Qed.

Lemma spec_max_ge (Rs : list R) (y : R) : In y Rs -> y <= spec_max Rs.
Proof.
  destruct Rs as [|x xs]; [intros []|]. simpl.
  destruct (fold_right_Rmax_ge x xs) as [Hx Hin].
  intros [<-|Hy]; [exact Hx | apply Hin; exact Hy].
Qed.

Lemma haro_approx_no_noise_value `{Env} (Rs : list R) (sg : R) (self : MLE) :
  self.(dnoise) = DNone -> Rs <> [] ->
  snd (_maxLikDimEstFromR_haro_approx Rs sg self) =
  Ok (spec_no_noise_estimate self.(unbiased) Rs).
Proof.
  intros Hd Hne. rewrite haro_approx_no_noise by exact Hd.
  rewrite np_max_spec by exact Hne. simpl.
  unfold spec_no_noise_estimate, spec_kfac, spec_log_ratio_sum.
  rewrite np_sum_map. reflexivity.
Qed.

Lemma sum_nonneg {A : Type} (f : A -> R) (l : list A) :
  (forall x, In x l -> 0 <= f x) ->
  0 <= fold_right (fun x acc => f x + acc) 0 l.
Proof.
  induction l as [|y ys IH]; intros Hall; simpl; [lra|].
  assert (0 <= f y) by (apply Hall; simpl; auto).
  assert (0 <= fold_right (fun x acc => f x + acc) 0 ys).
  { apply IH. intros w Hw. apply Hall. simpl. auto. }
  lra.
Qed.

Lemma log_ratio_nonneg (Rk Ri : R) : 0 < Ri -> Ri <= Rk -> 0 <= ln (Rk / Ri).
Proof.
  intros Hpos [Hlt | ->].
  - left. rewrite <- ln_1. apply ln_increasing; [lra|].
    apply Rmult_lt_reg_r with Ri; [exact Hpos|].
    unfold Rdiv. rewrite Rmult_assoc, Rinv_l by lra. lra.
  - unfold Rdiv. rewrite Rinv_r by lra. rewrite ln_1. lra.
Qed.

(** X5.  Without a noise model, positive distances never give a negative
    estimate, as soon as there are enough of them for [kfac] to be positive
    (two, or three when unbiased): every logarithm in the denominator is of
    a quotient that is at least 1. *)
Theorem no_noise_estimate_nonnegative `{Env} (Rs : list R) (sg : R) (self : MLE) :
  self.(dnoise) = DNone ->
  Forall (fun Ri => 0 < Ri) Rs ->
  ((if self.(unbiased) then 3 else 2) <= length Rs)%nat ->
  exists v,
    snd (_maxLikDimEstFromR_haro_approx Rs sg self) = Ok v /\ 0 <= v /\
    Forall (fun Ri => 1 <= spec_max Rs / Ri) Rs.
Proof.
  intros Hd Hpos Hlen.
  assert (Hne : Rs <> []).
  { intros ->. destruct (unbiased self); simpl in Hlen; lia. }
  rewrite Forall_forall in Hpos.
  exists (spec_no_noise_estimate self.(unbiased) Rs). split; [|split].
  - apply haro_approx_no_noise_value; assumption.
  - unfold spec_no_noise_estimate, spec_kfac, Rdiv. apply Rmult_le_pos.
    + apply IZR_le. destruct (unbiased self); lia.
    + assert (Hsum : 0 <= spec_log_ratio_sum Rs).
      { unfold spec_log_ratio_sum. apply sum_nonneg.
        intros x Hx. apply log_ratio_nonneg; [apply Hpos, Hx | apply spec_max_ge, Hx]. }
      destruct Hsum as [Hlt|Heq].
      * left. apply Rinv_0_lt_compat. exact Hlt.
      * rewrite <- Heq, Rinv_0. lra.
  - apply Forall_forall. intros x Hx.
    pose proof (Hpos x Hx) as Hx0. pose proof (spec_max_ge Rs x Hx) as Hmax.
    apply Rmult_le_reg_r with x; [exact Hx0|].
    unfold Rdiv. rewrite Rmult_assoc, Rinv_l by lra. lra.
Qed.

Lemma no_noise_estimate_nonnegative_witness :
  exists v,
    snd (_maxLikDimEstFromR_haro_approx (H:=example_env) [1; 2; 4] 0 mle_default) = Ok v /\
    0 <= v /\
    Forall (fun Ri => 1 <= spec_max [1; 2; 4] / Ri) [1; 2; 4].
Proof.
  apply (no_noise_estimate_nonnegative (H:=example_env) [1; 2; 4] 0 mle_default).
  - reflexivity.
  - repeat constructor; lra.
  - simpl. lia.
Defined.

(** *** The estimator with a noise model *)

Lemma slice_to_removelast {A : Type} (a : list A) :
  a <> [] -> slice_to (Z.of_nat (length a) - 1) a = removelast a.
Proof.
  intros Hne. unfold slice_to.
  assert (Hlen : (0 < length a)%nat) by (destruct a; [contradiction | simpl; lia]).
  replace (0 <=? Z.of_nat (length a) - 1)%Z with true by (symmetry; apply Z.leb_le; lia).
  replace (Z.to_nat (Z.of_nat (length a) - 1)) with (pred (length a)) by lia.
  symmetry. apply removelast_firstn_len.
Qed.

Lemma quad_events_length (radii : list R) (sg Rpr : R) :
  length (quad_events radii sg Rpr) = (2 * length radii)%nat.
Proof.
  induction radii as [|Rj radii IH]; [reflexivity|].
  cbn [quad_events flat_map app length]. fold (quad_events radii sg Rpr).
  rewrite IH. simpl. lia.
Qed.

Lemma haro_approx_total_run `{Env} (Rs : list R) (sg : R) (self : MLE)
    (f : R -> R -> R -> option Z -> R) :
  total_density self.(dnoise) = Some f -> Rs <> [] ->
  _maxLikDimEstFromR_haro_approx Rs sg self =
  (set_trace (self.(trace) ++ EvEstimate Rs sg
                :: quad_events (removelast Rs) sg (spec_max Rs + 100 * sg)) self,
   Ok (IZR (spec_kfac self.(unbiased) (length Rs))
       / np_sum (map (ratio_value (record (EvEstimate Rs sg) self) (spec_max Rs) sg
                                  (spec_max Rs + 100 * sg))
                     (removelast Rs)))).
Proof.
  intros Hf Hne.
  unfold _maxLikDimEstFromR_haro_approx, bind, emit, modify, get_self, lift.
  rewrite (np_max_spec Rs Hne).
  fold (record (EvEstimate Rs sg) self).
  assert (Hnone : is_None (dnoise (record (EvEstimate Rs sg) self)) = false).
  { simpl. destruct (dnoise self); simpl in Hf; try discriminate; reflexivity. }
  rewrite Hnone. cbv zeta.
  rewrite (integral_loop_total _ f) by exact Hf.
  rewrite slice_to_removelast by exact Hne.
  unfold ret, record, spec_kfac.
  rewrite set_trace_trace, set_trace_twice, <- app_assoc.
  reflexivity.
Qed.

(** X6.  With a positive noise scale and a noise density that returns (the
    Gaussian one or a callable of the caller) the estimator of a non-empty
    vector returns, after two
    integrals for every distance but the last and for no other: [2 (k - 1)]
    integrals, each over [[0, Rk + 100 sigma]] at the noise scale it was
    given; the estimate is [kfac] over the sum of the quotients of the two
    integrals. *)
Theorem haro_approx_integrals `{Env} (Rs : list R) (sg : R) (self : MLE)
    (f : R -> R -> R -> option Z -> R) :
  0 < sg -> total_density self.(dnoise) = Some f -> Rs <> [] ->
  let Rpr := spec_max Rs + 100 * sg in
  _maxLikDimEstFromR_haro_approx Rs sg self =
  (set_trace (self.(trace) ++ EvEstimate Rs sg :: quad_events (removelast Rs) sg Rpr)
             self,
   Ok (IZR (spec_kfac self.(unbiased) (length Rs))
       / np_sum (map (ratio_value (record (EvEstimate Rs sg) self) (spec_max Rs) sg Rpr)
                     (removelast Rs)))) /\
  length (quad_events (removelast Rs) sg Rpr) = (2 * (length Rs - 1))%nat.
Proof.
  intros _ Hf Hne Rpr. split.
  - apply (haro_approx_total_run Rs sg self f); assumption.
  - rewrite quad_events_length, removelast_firstn_len, length_firstn.
    destruct Rs; [contradiction | simpl; lia].
Qed.

Lemma haro_approx_integrals_witness :
  _maxLikDimEstFromR_haro_approx (H:=example_env) [1; 2; 4] 3 (set_dnoise DGaussH mle_noise) =
  (set_trace ((set_dnoise DGaussH mle_noise).(trace) ++ EvEstimate [1; 2; 4] 3
                :: quad_events (removelast [1; 2; 4]) 3 (spec_max [1; 2; 4] + 100 * 3))
             (set_dnoise DGaussH mle_noise),
   Ok (IZR (spec_kfac (set_dnoise DGaussH mle_noise).(unbiased) (length [1; 2; 4]))
       / np_sum (map (ratio_value (H:=example_env)
                        (record (EvEstimate [1; 2; 4] 3) (set_dnoise DGaussH mle_noise))
                        (spec_max [1; 2; 4]) 3 (spec_max [1; 2; 4] + 100 * 3))
                     (removelast [1; 2; 4])))) /\
  length (quad_events (removelast [1; 2; 4]) 3 (spec_max [1; 2; 4] + 100 * 3))
  = (2 * (length [1; 2; 4] - 1))%nat.
Proof.
  apply (haro_approx_integrals (H:=example_env) [1; 2; 4] 3 (set_dnoise DGaussH mle_noise)
           _dnoiseGaussH).
  - lra.
  - reflexivity.
  - discriminate.
Defined.

(** X7.  In "Haro" mode with a positive noise scale [self.sigma] and the
    noise model named 'dnoiseGaussH' (or already resolved to the density by
    an earlier call) [_fit] on a non-empty vector returns an estimate.  It leaves the density function in
    [dnoise] and takes its integrals at the noise scale [self.sigma]. *)
Theorem fit_haro_gaussian_returns `{Env} (Rs : list R) (sg : R) (self : MLE) :
  self.(integral_approximation) = "Haro"%string ->
  0 < self.(sigma) ->
  self.(dnoise) = DStr "dnoiseGaussH" \/ self.(dnoise) = DGaussH ->
  Rs <> [] ->
  exists de,
    _fit Rs sg self =
    (set_trace (self.(trace) ++ EvEstimate Rs self.(sigma)
                  :: quad_events (removelast Rs) self.(sigma)
                                 (spec_max Rs + 100 * self.(sigma)))
               (set_dnoise DGaussH self),
     Ok de).
Proof.
  intros HIA _ Hd Hne.
  assert (Hres : resolve_dnoise self = set_dnoise DGaussH self).
  { unfold resolve_dnoise. destruct Hd as [Hd|Hd]; rewrite Hd; simpl; rewrite HIA; simpl.
    - reflexivity.
    - destruct self; simpl in *; subst; reflexivity. }
  rewrite _fit_eq, HIA, Hres.
  cbn [existsb known_approximations String.eqb Ascii.eqb Bool.eqb orb negb].
  rewrite (haro_approx_total_run Rs self.(sigma) (set_dnoise DGaussH self) _dnoiseGaussH)
    by (assumption || reflexivity).
  eexists. reflexivity.
Qed.

Lemma fit_haro_gaussian_returns_witness :
  exists de,
    _fit (H:=example_env) [1; 2; 4] 9 mle_noise =
    (set_trace (mle_noise.(trace) ++ EvEstimate [1; 2; 4] mle_noise.(sigma)
                  :: quad_events (removelast [1; 2; 4]) mle_noise.(sigma)
                                 (spec_max [1; 2; 4] + 100 * mle_noise.(sigma)))
               (set_dnoise DGaussH mle_noise),
     Ok de).
Proof.
  apply (fit_haro_gaussian_returns (H:=example_env) [1; 2; 4] 9 mle_noise).
  - reflexivity.
  - simpl. lra.
  - left. reflexivity.
  - discriminate.
Defined.

(** X8.  A [dnoise] string other than 'dnoiseGaussH' is not resolved: in
    "Haro" mode [_fit] on at least two distances ends in the [TypeError] of
    calling a string, at the first integral, and the string stays in
    [dnoise]. *)
Theorem fit_unknown_noise_name `{Env} (Rs : list R) (sg : R) (self : MLE) (name : string) :
  self.(integral_approximation) = "Haro"%string ->
  self.(dnoise) = DStr name -> name <> "dnoiseGaussH"%string ->
  (2 <= length Rs)%nat ->
  exists self',
    _fit Rs sg self = (self', Err (TypeError "'str' object is not callable")) /\
    self'.(dnoise) = DStr name /\
    exists Rj Rpr,
      self'.(trace) = self.(trace) ++ [EvEstimate Rs self.(sigma); EvQuad Rj self.(sigma) 0 Rpr].
Proof.
  intros HIA Hd Hname Hlen.
  assert (Hres : resolve_dnoise self = self).
  { unfold resolve_dnoise. rewrite Hd. simpl.
    apply String.eqb_neq in Hname. rewrite Hname, HIA. reflexivity. }
  rewrite _fit_eq, HIA, Hres.
  cbn [existsb known_approximations String.eqb Ascii.eqb Bool.eqb orb negb].
  destruct Rs as [|R0 [|R1 Rs]]; simpl in Hlen; try lia.
  unfold _maxLikDimEstFromR_haro_approx, bind, emit, modify, get_self, lift.
  cbn [np_max set_trace dnoise trace]. rewrite Hd. cbn [is_None].
  unfold slice_to.
  replace (0 <=? Z.of_nat (length (R0 :: R1 :: Rs)) - 1)%Z with true
    by (symmetry; apply Z.leb_le; simpl length; lia).
  replace (Z.to_nat (Z.of_nat (length (R0 :: R1 :: Rs)) - 1))
    with (S (length Rs)) by (simpl length; lia).
  cbn [firstn for_each].
  unfold integral_ratio, bind, emit, modify, lift, scipy_quad, numInt, self_dnoise_call.
  cbn [set_trace dnoise trace]. rewrite Hd.
  assert (Hcall : forall x s0 sg0 k0,
             call_dnoise recursion_limit (DStr name) (DStr name) x s0 sg0 k0 =
             Err (TypeError "'str' object is not callable")).
  { intros. destruct recursion_limit; reflexivity. }
  rewrite Hcall. cbn [res_bind].
  eexists. split; [reflexivity|]. split; [exact Hd|].
  do 2 eexists. cbn [trace set_trace]. rewrite <- app_assoc. reflexivity.
Qed.

Lemma fit_unknown_noise_name_witness :
  exists self',
    _fit (H:=example_env) [1; 2] 1 mle_unknown_noise =
    (self', Err (TypeError "'str' object is not callable")) /\
    self'.(dnoise) = DStr "foo" /\
    exists Rj Rpr,
      self'.(trace) = mle_unknown_noise.(trace)
                      ++ [EvEstimate [1; 2] mle_unknown_noise.(sigma);
                          EvQuad Rj mle_unknown_noise.(sigma) 0 Rpr].
Proof.
  apply (fit_unknown_noise_name (H:=example_env) [1; 2] 1 mle_unknown_noise "foo").
  - reflexivity.
  - reflexivity.
  - discriminate.
  - simpl. lia.
Defined.

(** *** What the methods leave of the attributes [fit] writes *)

Lemma same_results_refl (o : MLE) : same_results o o.
Proof. repeat split. Qed.

Lemma same_results_trans (o1 o2 o3 : MLE) :
  same_results o1 o2 -> same_results o2 o3 -> same_results o1 o3.
Proof.
  unfold same_results. intros (A1 & A2 & A3 & A4 & A5 & A6 & A7 & A8)
                              (B1 & B2 & B3 & B4 & B5 & B6 & B7 & B8).
  repeat split; congruence.
Qed.

Lemma searches_app (t u : list event) : searches (t ++ u) = searches t ++ searches u.
Proof. apply flat_map_app. Qed.

Lemma same_searches_refl (o : MLE) : same_searches o o.
Proof. reflexivity. Qed.

Lemma same_searches_trans (o1 o2 o3 : MLE) :
  same_searches o1 o2 -> same_searches o2 o3 -> same_searches o1 o3.
Proof. unfold same_searches. congruence. Qed.

Lemma emit_estimate_same_searches (Rs : list R) (sg : R) :
  respects same_searches (emit (EvEstimate Rs sg)).
Proof.
  intros self. unfold same_searches. simpl. rewrite searches_app. simpl.
  apply app_nil_r.
Qed.

Lemma emit_quad_same_searches (Rj sg a b : R) :
  respects same_searches (emit (EvQuad Rj sg a b)).
Proof.
  intros self. unfold same_searches. simpl. rewrite searches_app. simpl.
  apply app_nil_r.
Qed.

Ltac frame_auto Rel_refl Rel_trans :=
  repeat first
    [ apply emit_estimate_same_searches
    | apply emit_quad_same_searches
    | frame_step Rel_refl Rel_trans
    | match goal with |- respects _ (if ?c then _ else _) => destruct c end
    | apply respects_modify; intros ?; solve [repeat split; auto] ].

Lemma _fit_same_results `{Env} (Rs : list R) (sg : R) :
  respects same_results (_fit Rs sg).
Proof.
  unfold _fit, _maxLikDimEstFromR_haro_approx, integral_ratio, emit.
  frame_auto same_results_refl same_results_trans.
Qed.

Lemma _fit_same_searches `{Env} (Rs : list R) (sg : R) :
  respects same_searches (_fit Rs sg).
Proof.
  unfold _fit, _maxLikDimEstFromR_haro_approx, integral_ratio.
  frame_auto same_searches_refl same_searches_trans.
Qed.

Lemma pointwise_same_results `{Env} (dists : list (list R)) :
  respects same_results (_maxLikPointwiseDimEst dists).
Proof.
  unfold _maxLikPointwiseDimEst.
  apply (respects_for_each _ same_results_refl same_results_trans). intros Rs.
  apply (respects_bind _ same_results_trans);
    [apply (respects_get_self _ same_results_refl) | intros self; apply _fit_same_results].
Qed.

Lemma pointwise_same_searches `{Env} (dists : list (list R)) :
  respects same_searches (_maxLikPointwiseDimEst dists).
Proof.
  unfold _maxLikPointwiseDimEst.
  apply (respects_for_each _ same_searches_refl same_searches_trans). intros Rs.
  apply (respects_bind _ same_searches_trans);
    [apply (respects_get_self _ same_searches_refl) | intros self; apply _fit_same_searches].
Qed.

(** *** The pointwise loop *)

(** X9.  When [_maxLikPointwiseDimEst] returns, it returns one estimate for
    every row of distances, and it has written none of the attributes that
    [fit] writes. *)
Theorem pointwise_one_estimate_per_row `{Env} (dists : list (list R))
    (self self' : MLE) (pw : list R) :
  _maxLikPointwiseDimEst dists self = (self', Ok pw) ->
  length pw = length dists /\ same_results self self'.
Proof.
  intros Hrun. split.
  - eapply for_each_length. exact Hrun.
  - pose proof (pointwise_same_results dists self) as Hsame.
    rewrite Hrun in Hsame. exact Hsame.
Qed.

Lemma pointwise_one_estimate_per_row_witness :
  length (map (spec_no_noise_estimate false) [[1; 2]; [1; 3]; [2; 4]])
  = length [[1; 2]; [1; 3]; [2; 4]] /\
  same_results mle_default
    (set_trace (mle_default.(trace)
                ++ map (fun Rs => EvEstimate Rs mle_default.(sigma))
                       [[1; 2]; [1; 3]; [2; 4]]) mle_default).
Proof.
  apply (pointwise_one_estimate_per_row (H:=example_env) [[1; 2]; [1; 3]; [2; 4]]
           mle_default).
  apply (pointwise_no_noise (H:=example_env) [[1; 2]; [1; 3]; [2; 4]] mle_default).
  - reflexivity.
  - reflexivity.
  - repeat constructor; discriminate.
Defined.

Lemma pointwise_empty_row `{Env} (dists : list (list R)) (self : MLE) :
  self.(dnoise) = DNone -> self.(integral_approximation) = "Haro"%string ->
  In [] dists ->
  snd (_maxLikPointwiseDimEst dists self) =
  Err (ValueError "zero-size array to reduction operation maximum which has no identity").
Proof.
  intros Hd HIA Hin. unfold _maxLikPointwiseDimEst.
  revert self Hd HIA. induction dists as [|Rs dists IH]; intros self Hd HIA;
    [destruct Hin|].
  cbn [for_each]. unfold bind at 1. unfold bind at 1. unfold get_self at 1.
  destruct Rs as [|R0 Rs].
  - rewrite _fit_eq, HIA. reflexivity.
  - destruct Hin as [Hin|Hin]; [discriminate Hin|].
    rewrite _fit_no_noise by (assumption || discriminate).
    unfold bind at 1.
    specialize (IH Hin (record (EvEstimate (R0 :: Rs) (sigma self)) self) Hd HIA).
    destruct (for_each _ dists _) as [s2 [ys|e]]; cbn [snd] in IH.
    + discriminate IH.
    + exact IH.
Qed.

(** X10.  A neighbourhood-based [fit] without noise stops at a distance
    matrix without columns: on an input that passes the checks, in "Haro"
    mode, a two-dimensional array of neighbour distances whose rows are
    empty makes [fit] raise the [ValueError] of [np.max], with no estimate
    stored and [is_fitted_] as it was. *)
Theorem fit_empty_row `{Env} (X : array_like)
    (pre : option (list (list R) * list (list Z))) (smooth : bool)
    (nn : option Z) (comb : string) (n_jobs : Z) (self : MLE)
    (rows : list (list R)) :
  self.(neighborhood_based) = true ->
  (resolved_n_neighbors nn < len X)%Z -> (self.(K) < len X)%Z ->
  check_array X (resolved_n_neighbors nn + 1) 2 = Ok rows ->
  self.(dnoise) = DNone -> self.(integral_approximation) = "Haro"%string ->
  rectangular (fst (knn_used self rows pre (resolved_n_neighbors nn) n_jobs)) = true ->
  In [] (fst (knn_used self rows pre (resolved_n_neighbors nn) n_jobs)) ->
  exists self',
    fit X pre smooth nn comb n_jobs self =
    (self', Err (ValueError "zero-size array to reduction operation maximum which has no identity")) /\
    self'.(dimension_pw_) = self.(dimension_pw_) /\
    self'.(dimension_) = self.(dimension_) /\
    self'.(is_fitted_) = self.(is_fitted_).
Proof.
  intros Hnb Hnn HK Hcheck Hd HIA _ Hin.
  rewrite (fit_eq X pre smooth nn comb n_jobs self rows) by (assumption || lia).
  cbv zeta. rewrite Hnb.
  set (s1 := after_prologue self pre (resolved_n_neighbors nn) comb).
  assert (Hs1 : s1.(dnoise) = DNone /\ s1.(integral_approximation) = "Haro"%string /\
                s1.(dimension_pw_) = self.(dimension_pw_) /\
                s1.(dimension_) = self.(dimension_) /\
                s1.(is_fitted_) = self.(is_fitted_)).
  { unfold s1, after_prologue. destruct pre; repeat split; assumption. }
  destruct Hs1 as (Hd1 & HIA1 & Hpw1 & Hdim1 & Hfit1).
  pose proof (pointwise_empty_row _ s1 Hd1 HIA1 Hin) as Herr.
  pose proof (pointwise_same_results
                (fst (knn_used self rows pre (resolved_n_neighbors nn) n_jobs)) s1) as Hsame.
  destruct (_maxLikPointwiseDimEst _ s1) as [s2 r]. cbn [fst snd] in *. subst r.
  destruct Hsame as (_ & _ & Hpw & Hdim & _ & _ & _ & Hfit).
  eexists. split; [reflexivity|]. repeat split; congruence.
Qed.

Lemma fit_empty_row_witness :
  exists self',
    fit (H:=example_env) example_X (Some ([[]; []; []; []; []; []], snd example_knn)) false
        (Some 2%Z) "mle" 1 mle_default =
    (self', Err (ValueError "zero-size array to reduction operation maximum which has no identity")) /\
    self'.(dimension_pw_) = mle_default.(dimension_pw_) /\
    self'.(dimension_) = mle_default.(dimension_) /\
    self'.(is_fitted_) = mle_default.(is_fitted_).
Proof.
  apply (fit_empty_row (H:=example_env) example_X
           (Some ([[]; []; []; []; []; []], snd example_knn)) false (Some 2%Z) "mle" 1
           mle_default [[0; 0]; [1; 0]; [0; 1]; [1; 1]; [2; 0]; [0; 2]]).
  - reflexivity.
  - reflexivity.
  - reflexivity.
  - reflexivity.
  - reflexivity.
  - reflexivity.
  - reflexivity.
  - simpl. auto.
Defined.

(** X11.  A neighbourhood-based [fit] without noise returns: on an input
    that passes the checks, in "Haro" mode, with no empty row of distances,
    a known [comb] and no smoothing, it stores the closed-form estimate of
    every row in [dimension_pw_], their combination in [dimension_], and
    sets [is_fitted_]. *)
Theorem fit_no_noise_returns `{Env} (X : array_like)
    (pre : option (list (list R) * list (list Z)))
    (nn : option Z) (comb : string) (n_jobs : Z) (self : MLE)
    (rows : list (list R)) (d : R) :
  self.(neighborhood_based) = true ->
  (resolved_n_neighbors nn < len X)%Z -> (self.(K) < len X)%Z ->
  check_array X (resolved_n_neighbors nn + 1) 2 = Ok rows ->
  self.(dnoise) = DNone -> self.(integral_approximation) = "Haro"%string ->
  let dists := fst (knn_used self rows pre (resolved_n_neighbors nn) n_jobs) in
  let pw := map (spec_no_noise_estimate self.(unbiased)) dists in
  Forall (fun Rs => Rs <> []) dists ->
  combine comb pw = Ok d ->
  exists self',
    fit X pre false nn comb n_jobs self = (self', Ok tt) /\
    self'.(dimension_pw_) = Some pw /\ self'.(dimension_) = Some d /\
    self'.(is_fitted_) = true.
Proof. apply fit_no_noise_run. Qed.

Lemma fit_no_noise_returns_witness :
  exists self',
    fit (H:=example_env) example_X (Some example_knn) false (Some 2%Z) "mean" 1
        mle_default = (self', Ok tt) /\
    self'.(dimension_pw_) =
      Some (map (spec_no_noise_estimate false) [[1; 2]; [1; 3]; [2; 4]]) /\
    self'.(dimension_) =
      Some (np_mean (map (spec_no_noise_estimate false) [[1; 2]; [1; 3]; [2; 4]])) /\
    self'.(is_fitted_) = true.
Proof.
  apply (fit_no_noise_returns (H:=example_env) example_X (Some example_knn) (Some 2%Z)
           "mean" 1 mle_default [[0; 0]; [1; 0]; [0; 1]; [1; 1]; [2; 0]; [0; 2]]).
  - reflexivity.
  - reflexivity.
  - reflexivity.
  - reflexivity.
  - reflexivity.
  - reflexivity.
  - repeat constructor; discriminate.
  - reflexivity.
Defined.

(** *** [fit], case by case *)

(** The three ways a call of [fit] goes: stopped at a clamp, stopped at the
    shape check, or past both. *)
Lemma fit_cases `{Env} (X : array_like)
    (pre : option (list (list R) * list (list Z))) (smooth : bool)
    (nn : option Z) (comb : string) (n_jobs : Z) (self : MLE)
    (P : MLE * res unit -> Prop) :
  P (self, Err (NameError "name 'warnings' is not defined")) ->
  (forall e, P (set_comb comb (set_n_neighbors (resolved_n_neighbors nn) self), Err e)) ->
  (forall rows,
      (resolved_n_neighbors nn < len X)%Z -> (self.(K) < len X)%Z ->
      check_array X (resolved_n_neighbors nn + 1) 2 = Ok rows ->
      P (fit X pre smooth nn comb n_jobs self)) ->
  P (fit X pre smooth nn comb n_jobs self).
Proof.
  intros Hclamp Hshape Hvalid.
  destruct (Z.le_gt_cases (len X) (resolved_n_neighbors nn)) as [Hnn|Hnn].
  { rewrite fit_unbound_warnings by (left; exact Hnn). exact Hclamp. }
  destruct (Z.le_gt_cases (len X) self.(K)) as [HK|HK].
  { rewrite fit_unbound_warnings by (right; exact HK). exact Hclamp. }
  destruct (check_array X (resolved_n_neighbors nn + 1) 2) as [rows|e] eqn:Hcheck.
  - apply (Hvalid rows); (assumption || reflexivity).
  - rewrite (fit_bad_shape X pre smooth nn comb n_jobs self e) by (assumption || lia).
    apply Hshape.
Qed.

Lemma resolve_dnoise_same_results (self : MLE) : same_results self (resolve_dnoise self).
Proof.
  unfold resolve_dnoise.
  destruct (dnoise_eq_str (dnoise self) "dnoiseGaussH"); simpl;
    match goal with |- context [if ?c then _ else _] => destruct c end;
    repeat split.
Qed.

(** With a known approximation [_fit] always enters the estimator. *)
Lemma _fit_known_state `{Env} (Rs : list R) (sg : R) (self : MLE) :
  In self.(integral_approximation) known_approximations ->
  exists more,
    (fst (_fit Rs sg self)).(trace) = self.(trace) ++ EvEstimate Rs self.(sigma) :: more.
Proof.
  intros Hknown. apply known_approximation_In in Hknown.
  pose proof (haro_approx_records Rs (sigma self) (resolve_dnoise self)) as [more Hrec].
  pose proof (resolve_dnoise_frame self) as (_ & _ & _ & _ & _ & _ & Htrace).
  exists more.
  rewrite _fit_eq, Hknown. cbn [negb].
  destruct (_maxLikDimEstFromR_haro_approx Rs (sigma self) (resolve_dnoise self))
    as [s1 [de|e]]; cbn [fst] in *; [destruct (String.eqb _ _)|]; cbn [fst];
    rewrite Hrec; simpl; rewrite Htrace, <- app_assoc; reflexivity.
Qed.

(** *** The distance vector of the non-neighbourhood-based mode *)

Lemma strictly_sorted (a : list R) :
  Sorted Rle a -> NoDup a -> StronglySorted Rlt a.
Proof.
  intros Hsorted Hnodup.
  apply Sorted_StronglySorted in Hsorted; [|intros x y z; apply Rle_trans].
  induction Hsorted as [|x xs Hxs IH Hall]; [constructor|].
  inversion Hnodup as [|? ? Hnotin Hnodup']; subst.
  constructor; [apply IH; exact Hnodup'|].
  rewrite Forall_forall in *. intros y Hy.
  destruct (Hall y Hy) as [Hlt|Heq]; [exact Hlt|].
  subst y. contradiction.
Qed.

Lemma firstn_strongly_sorted (m : nat) (a : list R) :
  StronglySorted Rlt a -> StronglySorted Rlt (firstn m a).
Proof.
  intros Hs. revert m. induction Hs as [|x xs Hxs IH Hall]; intros m.
  - rewrite firstn_nil. constructor.
  - destruct m as [|m]; [constructor|]. simpl. constructor; [apply IH|].
    rewrite Forall_forall in *. intros y Hy. apply Hall.
    rewrite <- (firstn_skipn m xs). apply in_or_app. left. exact Hy.
Qed.

Lemma slice_to_incl {A : Type} (stop : Z) (a : list A) (x : A) :
  In x (slice_to stop a) -> In x a.
Proof.
  unfold slice_to. destruct (0 <=? stop)%Z; intros Hin.
  - rewrite <- (firstn_skipn (Z.to_nat stop) a). apply in_or_app. left. exact Hin.
  - rewrite <- (firstn_skipn (Z.to_nat (Z.of_nat (length a) + stop)) a).
    apply in_or_app. left. exact Hin.
Qed.

Lemma columns_entries (m : nat) (rows : list (list R)) (x : R) :
  Forall (fun row => length row = m) rows ->
  In x (concat (columns m rows)) -> exists row, In row rows /\ In x row.
Proof.
  revert rows. induction m as [|m IH]; intros rows Hlen Hin; [destruct Hin|].
  cbn [columns concat] in Hin. apply in_app_or in Hin. destruct Hin as [Hin|Hin].
  - apply in_map_iff in Hin. destruct Hin as (row & Hhd & Hrow).
    exists row. split; [exact Hrow|].
    rewrite Forall_forall in Hlen. specialize (Hlen row Hrow).
    destruct row as [|y ys]; [discriminate Hlen|]. simpl in Hhd. subst. left. reflexivity.
  - destruct (IH (map (@tl R) rows)) as (row' & Hrow' & Hx); [|exact Hin|].
    + rewrite Forall_forall in *. intros row' Hrow'.
      apply in_map_iff in Hrow'. destruct Hrow' as (row & <- & Hrow).
      specialize (Hlen row Hrow). destruct row; [discriminate Hlen|].
      simpl in *. lia.
    + apply in_map_iff in Hrow'. destruct Hrow' as (row & <- & Hrow).
      exists row. split; [exact Hrow|].
      destruct row; [destruct Hx | right; exact Hx].
Qed.

Lemma rectangular_lengths (rows : list (list R)) :
  rectangular rows = true ->
  Forall (fun row => length row = length (hd [] rows)) rows.
Proof.
  unfold rectangular. rewrite forallb_forall, Forall_forall.
  intros Hall row Hrow. apply Nat.eqb_eq. apply Hall. exact Hrow.
Qed.

Lemma distance_vector_shape (stop : Z) (dists : list (list R)) :
  let Rs := slice_to stop (np_sort (py_set (flatten_F dists))) in
  StronglySorted Rlt Rs /\
  ((0 <= stop)%Z -> (length Rs <= Z.to_nat stop)%nat) /\
  (rectangular dists = true ->
   forall x, In x Rs -> exists row, In row dists /\ In x row).
Proof.
  intros Rs.
  assert (Hsorted : StronglySorted Rlt (np_sort (py_set (flatten_F dists)))).
  { apply strictly_sorted; [apply np_sort_sorted|].
    eapply Permutation_NoDup; [apply np_sort_perm | apply NoDup_nodup]. }
  split; [|split].
  - unfold Rs, slice_to. destruct (0 <=? stop)%Z; apply firstn_strongly_sorted, Hsorted.
  - intros Hstop. unfold Rs, slice_to.
    apply Z.leb_le in Hstop. rewrite Hstop. apply firstn_le_length.
  - intros Hrect x Hx. apply slice_to_incl in Hx.
    apply (Permutation_in x (Permutation_sym (np_sort_perm _))) in Hx.
    apply nodup_In in Hx.
    apply (columns_entries (length (hd [] dists)) dists x); [|exact Hx].
    apply rectangular_lengths. exact Hrect.
Qed.

(** X12.  In non-neighbourhood-based mode, on an input that passes the
    checks and with a known approximation, the estimator is entered once
    with a vector that is strictly increasing (so without duplicates), has
    at most [n_neighbors] entries and, for a rectangular distance matrix,
    holds only entries of that matrix; the noise scale recorded with it is
    [self.sigma]. *)
Theorem fit_global_distance_vector `{Env} (X : array_like)
    (pre : option (list (list R) * list (list Z))) (smooth : bool)
    (nn : option Z) (comb : string) (n_jobs : Z) (self : MLE)
    (rows : list (list R)) :
  self.(neighborhood_based) = false ->
  (resolved_n_neighbors nn < len X)%Z -> (self.(K) < len X)%Z ->
  check_array X (resolved_n_neighbors nn + 1) 2 = Ok rows ->
  In self.(integral_approximation) known_approximations ->
  let dists := fst (knn_used self rows pre (resolved_n_neighbors nn) n_jobs) in
  exists Rs more,
    (fst (fit X pre smooth nn comb n_jobs self)).(trace) =
      (after_prologue self pre (resolved_n_neighbors nn) comb).(trace)
      ++ EvEstimate Rs self.(sigma) :: more /\
    StronglySorted Rlt Rs /\
    ((0 <= resolved_n_neighbors nn)%Z ->
     (length Rs <= Z.to_nat (resolved_n_neighbors nn))%nat) /\
    (rectangular dists = true -> forall x, In x Rs -> exists row, In row dists /\ In x row).
Proof.
  intros Hnb Hnn HK Hcheck Hknown dists.
  pose proof (distance_vector_shape (resolved_n_neighbors nn) dists) as Hshape.
  cbv zeta in Hshape.
  exists (slice_to (resolved_n_neighbors nn) (np_sort (py_set (flatten_F dists)))).
  rewrite (fit_eq X pre smooth nn comb n_jobs self rows) by (assumption || lia).
  cbv zeta. rewrite Hnb. fold dists.
  set (s1 := after_prologue self pre (resolved_n_neighbors nn) comb).
  assert (Hs1 : s1.(integral_approximation) = self.(integral_approximation) /\
                s1.(sigma) = self.(sigma)).
  { unfold s1, after_prologue. destruct pre; split; reflexivity. }
  destruct Hs1 as [HIA1 Hsg1].
  destruct (_fit_known_state
              (slice_to (resolved_n_neighbors nn) (np_sort (py_set (flatten_F dists))))
              (sqrt 2 * sigma self) s1) as [more Hmore].
  { rewrite HIA1. exact Hknown. }
  rewrite Hsg1 in Hmore.
  exists more. split; [|exact Hshape].
  destruct (_fit _ _ s1) as [s2 [de|e]]; cbn [fst] in *; exact Hmore.
Qed.

Lemma fit_global_distance_vector_witness :
  exists Rs more,
    (fst (fit (H:=example_env) example_X (Some example_knn) false (Some 2%Z) "mle" 1
              mle_global)).(trace) =
      (after_prologue mle_global (Some example_knn) 2 "mle").(trace)
      ++ EvEstimate Rs mle_global.(sigma) :: more /\
    StronglySorted Rlt Rs /\
    ((0 <= 2)%Z -> (length Rs <= Z.to_nat 2)%nat) /\
    (rectangular (fst example_knn) = true ->
     forall x, In x Rs -> exists row, In row (fst example_knn) /\ In x row).
Proof.
  apply (fit_global_distance_vector (H:=example_env) example_X (Some example_knn) false
           (Some 2%Z) "mle" 1 mle_global
           [[0; 0]; [1; 0]; [0; 1]; [1; 1]; [2; 0]; [0; 2]]).
  - reflexivity.
  - reflexivity.
  - reflexivity.
  - reflexivity.
  - simpl. auto.
Defined.

(** X13.  In non-neighbourhood-based mode without noise [fit] returns: on
    an input that passes the checks, in "Haro" mode, when the matrix holds at
    least one distance and [n_neighbors] keeps at least one, the global
    estimate is the closed form on the vector of the smallest distinct
    distances, and [is_fitted_] is set. *)
Theorem fit_global_no_noise_returns `{Env} (X : array_like)
    (pre : option (list (list R) * list (list Z))) (smooth : bool)
    (nn : option Z) (comb : string) (n_jobs : Z) (self : MLE)
    (rows : list (list R)) :
  self.(neighborhood_based) = false ->
  (resolved_n_neighbors nn < len X)%Z -> (self.(K) < len X)%Z ->
  check_array X (resolved_n_neighbors nn + 1) 2 = Ok rows ->
  self.(dnoise) = DNone -> self.(integral_approximation) = "Haro"%string ->
  let dists := fst (knn_used self rows pre (resolved_n_neighbors nn) n_jobs) in
  let Rs := slice_to (resolved_n_neighbors nn) (np_sort (py_set (flatten_F dists))) in
  Rs <> [] ->
  exists self',
    fit X pre smooth nn comb n_jobs self = (self', Ok tt) /\
    self'.(dimension_) = Some (spec_no_noise_estimate self.(unbiased) Rs) /\
    self'.(is_fitted_) = true /\
    self'.(dimension_pw_) = self.(dimension_pw_).
Proof.
  intros Hnb Hnn HK Hcheck Hd HIA dists Rs Hne.
  rewrite (fit_eq X pre smooth nn comb n_jobs self rows) by (assumption || lia).
  cbv zeta. rewrite Hnb. fold dists. fold Rs.
  set (s1 := after_prologue self pre (resolved_n_neighbors nn) comb).
  assert (Hs1 : s1.(dnoise) = DNone /\ s1.(integral_approximation) = "Haro"%string /\
                s1.(unbiased) = self.(unbiased) /\
                s1.(dimension_pw_) = self.(dimension_pw_)).
  { unfold s1, after_prologue. destruct pre; repeat split; assumption. }
  destruct Hs1 as (Hd1 & HIA1 & Hu1 & Hpw1).
  rewrite _fit_no_noise by assumption.
  eexists. split; [reflexivity|]. cbn. rewrite Hu1, Hpw1. repeat split.
Qed.

Lemma fit_global_no_noise_returns_witness :
  exists self',
    fit (H:=example_env) example_X (Some example_knn) false (Some 2%Z) "mle" 1 mle_global
    = (self', Ok tt) /\
    self'.(dimension_) =
      Some (spec_no_noise_estimate mle_global.(unbiased)
              (slice_to 2 (np_sort (py_set (flatten_F (fst example_knn)))))) /\
    self'.(is_fitted_) = true /\
    self'.(dimension_pw_) = mle_global.(dimension_pw_).
Proof.
  apply (fit_global_no_noise_returns (H:=example_env) example_X (Some example_knn) false
           (Some 2%Z) "mle" 1 mle_global
           [[0; 0]; [1; 0]; [0; 1]; [1; 1]; [2; 0]; [0; 2]]).
  - reflexivity.
  - reflexivity.
  - reflexivity.
  - reflexivity.
  - reflexivity.
  - reflexivity.
  - change (slice_to 2 (np_sort (py_set (flatten_F (fst example_knn)))) <> []).
    rewrite example_distance_vector. discriminate.
Defined.

Lemma same_pointwise_refl (o : MLE) : same_pointwise o o.
Proof. repeat split. Qed.

Lemma same_results_pointwise (o o' : MLE) : same_results o o' -> same_pointwise o o'.
Proof.
  intros (_ & _ & Hpw & _ & Hsm & Hfs & Hfp & _). repeat split; assumption.
Qed.

(** X14.  In non-neighbourhood-based mode no call of [fit], however it
    ends, writes a pointwise attribute: [dimension_pw_],
    [dimension_pw_smooth_], [is_fitted_pw_] and [is_fitted_pw_smooth_] are
    as they were, also when [smooth] is asked for. *)
Theorem fit_global_keeps_pointwise `{Env} (X : array_like)
    (pre : option (list (list R) * list (list Z))) (smooth : bool)
    (nn : option Z) (comb : string) (n_jobs : Z) (self : MLE) :
  self.(neighborhood_based) = false ->
  same_pointwise self (fst (fit X pre smooth nn comb n_jobs self)).
Proof.
  intros Hnb.
  apply (fit_cases X pre smooth nn comb n_jobs self
           (fun p => same_pointwise self (fst p))).
  - apply same_pointwise_refl.
  - intros e. repeat split.
  - intros rows Hnn HK Hcheck.
    rewrite (fit_eq X pre smooth nn comb n_jobs self rows) by assumption.
    cbv zeta. rewrite Hnb.
    set (s1 := after_prologue self pre (resolved_n_neighbors nn) comb).
    assert (H1 : same_pointwise self s1).
    { unfold s1, after_prologue. destruct pre; repeat split. }
    match goal with |- context [_fit ?a ?b s1] =>
      pose proof (same_results_pointwise _ _ (_fit_same_results a b s1)) as H2;
      destruct (_fit a b s1) as [s2 [de|e]] end; cbn [fst] in *;
      destruct H1 as (A1 & A2 & A3 & A4); destruct H2 as (B1 & B2 & B3 & B4);
      repeat split; simpl; congruence.
Qed.

Lemma fit_global_keeps_pointwise_witness :
  same_pointwise mle_global
    (fst (fit (H:=example_env) example_X (Some example_knn) true (Some 2%Z) "mle" 1
              mle_global)).
Proof.
  apply (fit_global_keeps_pointwise (H:=example_env) example_X (Some example_knn) true
           (Some 2%Z) "mle" 1 mle_global).
  reflexivity.
Defined.

Lemma same_is_fitted_refl (o : MLE) : same_is_fitted o o.
Proof. reflexivity. Qed.

Lemma same_is_fitted_trans (o1 o2 o3 : MLE) :
  same_is_fitted o1 o2 -> same_is_fitted o2 o3 -> same_is_fitted o1 o3.
Proof. unfold same_is_fitted. congruence. Qed.

Lemma smooth_phase_same_is_fitted (pw : list R) (knnidx : list (list Z)) (smooth : bool) :
  respects same_is_fitted (when smooth (smooth_phase pw knnidx)).
Proof.
  apply (respects_when _ same_is_fitted_refl). unfold smooth_phase.
  apply (respects_bind _ same_is_fitted_trans); [frame_setter | intros _].
  apply (respects_bind _ same_is_fitted_trans); [| intros _; frame_setter].
  apply (respects_for_each _ same_is_fitted_refl same_is_fitted_trans).
  intros [i point_nn].
  apply (respects_bind _ same_is_fitted_trans);
    [apply (respects_lift _ same_is_fitted_refl) | intros v; frame_setter].
Qed.

Lemma smooth_phase_same_searches (pw : list R) (knnidx : list (list Z)) (smooth : bool) :
  respects same_searches (when smooth (smooth_phase pw knnidx)).
Proof.
  apply (respects_when _ same_searches_refl). unfold smooth_phase.
  apply (respects_bind _ same_searches_trans); [frame_setter | intros _].
  apply (respects_bind _ same_searches_trans); [| intros _; frame_setter].
  apply (respects_for_each _ same_searches_refl same_searches_trans).
  intros [i point_nn].
  apply (respects_bind _ same_searches_trans);
    [apply (respects_lift _ same_searches_refl) | intros v; frame_setter].
Qed.

(** How a call of [fit] ends: with [is_fitted_] set and a global estimate
    stored, or with [is_fitted_] as it was. *)
Lemma fit_outcome `{Env} (X : array_like)
    (pre : option (list (list R) * list (list Z))) (smooth : bool)
    (nn : option Z) (comb : string) (n_jobs : Z) (self : MLE) :
  match snd (fit X pre smooth nn comb n_jobs self) with
  | Ok _ =>
      (fst (fit X pre smooth nn comb n_jobs self)).(is_fitted_) = true /\
      exists d, (fst (fit X pre smooth nn comb n_jobs self)).(dimension_) = Some d
  | Err _ =>
      (fst (fit X pre smooth nn comb n_jobs self)).(is_fitted_) = self.(is_fitted_)
  end.
Proof.
  apply (fit_cases X pre smooth nn comb n_jobs self
           (fun p => match snd p with
                     | Ok _ => (fst p).(is_fitted_) = true /\
                               exists d, (fst p).(dimension_) = Some d
                     | Err _ => (fst p).(is_fitted_) = self.(is_fitted_)
                     end)).
  - reflexivity.
  - intros e. reflexivity.
  - intros rows Hnn HK Hcheck.
    rewrite (fit_eq X pre smooth nn comb n_jobs self rows) by assumption.
    cbv zeta.
    set (s1 := after_prologue self pre (resolved_n_neighbors nn) comb).
    assert (H1 : s1.(is_fitted_) = self.(is_fitted_)).
    { unfold s1, after_prologue. destruct pre; reflexivity. }
    set (knn := knn_used self rows pre (resolved_n_neighbors nn) n_jobs).
    destruct (neighborhood_based self).
    + pose proof (pointwise_same_results (fst knn) s1) as H2.
      destruct (_maxLikPointwiseDimEst (fst knn) s1) as [s2 [pw|e]]; cbn [fst snd] in *.
      2:{ destruct H2 as (_ & _ & _ & _ & _ & _ & _ & H2). congruence. }
      destruct H2 as (_ & _ & _ & _ & _ & _ & _ & H2).
      destruct (combine comb pw) as [d|e]; cbn [fst snd]; [|simpl; congruence].
      pose proof (smooth_phase_same_is_fitted pw (snd knn) smooth
                    (set_dimension_ d (set_dimension_pw_ pw s2))) as H3.
      pose proof (smooth_phase_same_estimates pw (snd knn) smooth
                    (set_dimension_ d (set_dimension_pw_ pw s2))) as [H4 _].
      destruct (when smooth (smooth_phase pw (snd knn)) _) as [s3 [u|e]];
        cbn [fst snd] in *.
      * split; [reflexivity|]. exists d. simpl. exact H4.
      * unfold same_is_fitted in H3. simpl in H3. congruence.
    + match goal with |- context [_fit ?a ?b s1] =>
        pose proof (_fit_same_results a b s1) as H2;
        destruct (_fit a b s1) as [s2 [de|e]] end; cbn [fst snd] in *.
      * split; [reflexivity|]. exists de. reflexivity.
      * destruct H2 as (_ & _ & _ & _ & _ & _ & _ & H2). congruence.
Qed.

(** X15.  A call of [fit] that returns has set [is_fitted_] and stored a
    global estimate in [dimension_]; a call that raises, for whatever
    reason, leaves [is_fitted_] as it was. *)
Theorem fit_is_fitted `{Env} (X : array_like)
    (pre : option (list (list R) * list (list Z))) (smooth : bool)
    (nn : option Z) (comb : string) (n_jobs : Z) (self self' : MLE) (r : res unit) :
  fit X pre smooth nn comb n_jobs self = (self', r) ->
  match r with
  | Ok _ => self'.(is_fitted_) = true /\ exists d, self'.(dimension_) = Some d
  | Err _ => self'.(is_fitted_) = self.(is_fitted_)
  end.
Proof.
  intros Hrun. pose proof (fit_outcome X pre smooth nn comb n_jobs self) as Hout.
  rewrite Hrun in Hout. exact Hout.
Qed.

Lemma fit_is_fitted_witness :
  (fst (fit (H:=example_env) example_X (Some example_knn) false (Some 2%Z) "bogus" 1
            mle_default)).(is_fitted_) = mle_default.(is_fitted_).
Proof.
  apply (fit_is_fitted (H:=example_env) example_X (Some example_knn) false (Some 2%Z)
           "bogus" 1 mle_default _
           (Err (ValueError "Invalid comb parameter. It has to be 'mean' or 'median'"))).
  reflexivity.
Defined.

(** X16.  [fit_predict] ends as [fit] does, on the same object: it returns
    exactly when [fit] returns, then with the stored [dimension_], and it
    raises only what [fit] raises, never for a missing [dimension_]. *)
Theorem fit_predict_returns_dimension `{Env} (X : array_like)
    (pre : option (list (list R) * list (list Z))) (smooth : bool)
    (nn : option Z) (comb : string) (n_jobs : Z) (self : MLE) :
  fst (fit_predict X pre smooth nn comb n_jobs self) =
    fst (fit X pre smooth nn comb n_jobs self) /\
  match snd (fit_predict X pre smooth nn comb n_jobs self) with
  | Ok d =>
      snd (fit X pre smooth nn comb n_jobs self) = Ok tt /\
      (fst (fit X pre smooth nn comb n_jobs self)).(dimension_) = Some d
  | Err e => snd (fit X pre smooth nn comb n_jobs self) = Err e
  end.
Proof.
  pose proof (fit_outcome X pre smooth nn comb n_jobs self) as Hout.
  unfold fit_predict, bind, get_self.
  destruct (fit X pre smooth nn comb n_jobs self) as [self' [[]|e]]; cbn [fst snd] in *.
  - destruct Hout as [_ [d Hd]]. rewrite Hd. simpl. auto.
  - auto.
Qed.

(** *** The neighbour search *)

(** X17.  On an input that passes the checks, [fit] searches neighbours at
    most once: not at all when [precomputed_knn_arrays] is given, and
    otherwise once, with [k = n_neighbors] in neighbourhood-based mode and
    [k = K] in the other, whatever happens after the search. *)
Theorem fit_neighbor_search `{Env} (X : array_like)
    (pre : option (list (list R) * list (list Z))) (smooth : bool)
    (nn : option Z) (comb : string) (n_jobs : Z) (self : MLE)
    (rows : list (list R)) :
  (resolved_n_neighbors nn < len X)%Z -> (self.(K) < len X)%Z ->
  check_array X (resolved_n_neighbors nn + 1) 2 = Ok rows ->
  searches (fst (fit X pre smooth nn comb n_jobs self)).(trace) =
  searches self.(trace)
  ++ match pre with
     | Some _ => []
     | None => [if self.(neighborhood_based) then resolved_n_neighbors nn else self.(K)]
     end.
Proof.
  intros Hnn HK Hcheck.
  rewrite (fit_eq X pre smooth nn comb n_jobs self rows) by assumption.
  cbv zeta.
  set (s1 := after_prologue self pre (resolved_n_neighbors nn) comb).
  assert (H1 : searches s1.(trace) =
               searches self.(trace)
               ++ match pre with
                  | Some _ => []
                  | None => [if self.(neighborhood_based)
                             then resolved_n_neighbors nn else self.(K)]
                  end).
  { unfold s1, after_prologue. destruct pre; simpl.
    - symmetry. apply app_nil_r.
    - rewrite searches_app. reflexivity. }
  rewrite <- H1.
  set (knn := knn_used self rows pre (resolved_n_neighbors nn) n_jobs).
  destruct (neighborhood_based self).
  - pose proof (pointwise_same_searches (fst knn) s1) as H2.
    destruct (_maxLikPointwiseDimEst (fst knn) s1) as [s2 [pw|e]]; cbn [fst] in *;
      [|exact H2].
    destruct (combine comb pw) as [d|e]; [|exact H2].
    pose proof (smooth_phase_same_searches pw (snd knn) smooth
                  (set_dimension_ d (set_dimension_pw_ pw s2))) as H3.
    destruct (when smooth (smooth_phase pw (snd knn)) _) as [s3 [u|e]]; cbn [fst] in *;
      unfold same_searches in *; simpl in *; congruence.
  - match goal with |- context [_fit ?a ?b s1] =>
      pose proof (_fit_same_searches a b s1) as H2;
      destruct (_fit a b s1) as [s2 [de|e]] end; cbn [fst] in *; exact H2.
Qed.

Lemma fit_neighbor_search_witness :
  searches (fst (fit (H:=example_env) example_X None false (Some 2%Z) "mle" 1
                     mle_global)).(trace) =
  searches mle_global.(trace) ++ [mle_global.(K)].
Proof.
  apply (fit_neighbor_search (H:=example_env) example_X None false (Some 2%Z) "mle" 1
           mle_global [[0; 0]; [1; 0]; [0; 1]; [1; 1]; [2; 0]; [0; 2]]).
  - reflexivity.
  - reflexivity.
  - reflexivity.
Defined.

(** *** Smoothing *)








(** *** The approximation option without noise, and an empty vector in [fit] *)

(** X20.  Without a noise model the choice between "Haro" and
    "guaranteed.convergence" changes nothing: [_fit] is then the estimator
    itself at [self.sigma], with the object and [dnoise] treated alike, and
    so the two settings give the same result. *)
Theorem fit_approximation_without_noise `{Env} (Rs : list R) (sg : R) (self : MLE) :
  self.(dnoise) = DNone ->
  self.(integral_approximation) = "Haro"%string \/
  self.(integral_approximation) = "guaranteed.convergence"%string ->
  _fit Rs sg self = _maxLikDimEstFromR_haro_approx Rs self.(sigma) self.
Proof.
  intros Hd HIA. rewrite _fit_eq, (resolve_dnoise_None self Hd).
  destruct HIA as [HIA|HIA]; rewrite HIA;
    cbn [existsb known_approximations String.eqb Ascii.eqb Bool.eqb orb negb];
    destruct (_maxLikDimEstFromR_haro_approx Rs (sigma self) self) as [s1 [de|e]];
    reflexivity.
Qed.

Lemma fit_approximation_without_noise_witness :
  _fit (H:=example_env) [1; 2; 4] 5
       (__init__ DNone 0 None "guaranteed.convergence" false true 5) =
  _maxLikDimEstFromR_haro_approx (H:=example_env) [1; 2; 4] 0
       (__init__ DNone 0 None "guaranteed.convergence" false true 5).
Proof.
  apply (fit_approximation_without_noise (H:=example_env) [1; 2; 4] 5
           (__init__ DNone 0 None "guaranteed.convergence" false true 5)).
  - reflexivity.
  - right. reflexivity.
Defined.

(** X21.  In non-neighbourhood-based mode [n_neighbors = 0] keeps no
    distance: on an input that passes the checks and with a known
    approximation, [fit] raises the [ValueError] of [np.max] on an empty
    array and stores no estimate. *)
Theorem fit_global_zero_neighbors `{Env} (X : array_like)
    (pre : option (list (list R) * list (list Z))) (smooth : bool)
    (comb : string) (n_jobs : Z) (self : MLE) (rows : list (list R)) :
  self.(neighborhood_based) = false ->
  (0 < len X)%Z -> (self.(K) < len X)%Z ->
  check_array X 1 2 = Ok rows ->
  In self.(integral_approximation) known_approximations ->
  exists self',
    fit X pre smooth (Some 0%Z) comb n_jobs self =
    (self', Err (ValueError "zero-size array to reduction operation maximum which has no identity")) /\
    self'.(dimension_) = self.(dimension_) /\
    self'.(is_fitted_) = self.(is_fitted_).
Proof.
  intros Hnb Hlen HK Hcheck Hknown.
  rewrite (fit_eq X pre smooth (Some 0%Z) comb n_jobs self rows) by assumption.
  cbv zeta. rewrite Hnb.
  change (slice_to (resolved_n_neighbors (Some 0%Z)) ?l) with (@nil R).
  set (s1 := after_prologue self pre (resolved_n_neighbors (Some 0%Z)) comb).
  assert (Hs1 : s1.(integral_approximation) = self.(integral_approximation) /\
                s1.(dimension_) = self.(dimension_) /\
                s1.(is_fitted_) = self.(is_fitted_)).
  { unfold s1, after_prologue. destruct pre; repeat split. }
  destruct Hs1 as (HIA1 & Hdim1 & Hfit1).
  apply known_approximation_In in Hknown. rewrite <- HIA1 in Hknown.
  rewrite _fit_eq, Hknown. cbn [negb].
  pose proof (resolve_dnoise_same_results s1) as (_ & _ & _ & Hdim & _ & _ & _ & Hfit).
  eexists. split; [reflexivity|]. simpl. split; congruence.
Qed.

Lemma fit_global_zero_neighbors_witness :
  exists self',
    fit (H:=example_env) example_X (Some example_knn) false (Some 0%Z) "mle" 1 mle_global =
    (self', Err (ValueError "zero-size array to reduction operation maximum which has no identity")) /\
    self'.(dimension_) = mle_global.(dimension_) /\
    self'.(is_fitted_) = mle_global.(is_fitted_).
Proof.
  apply (fit_global_zero_neighbors (H:=example_env) example_X (Some example_knn) false
           "mle" 1 mle_global [[0; 0]; [1; 0]; [0; 1]; [1; 1]; [2; 0]; [0; 2]]).
  - reflexivity.
  - reflexivity.
  - reflexivity.
  - reflexivity.
  - simpl. auto.
Defined.
